(** * Block-Tac-Toe: a shallow embedding of [ttt.py]

    The board ([Board]), the players ([Player], [HumanPlayer]) and the event
    handling of the controller ([Game.run]) are embedded as functions over
    explicit state.  Python integers are [Z], cells are one-character strings
    as in the source (["."] empty, ["#"] obstacle, any other string a mark),
    the grid is a list of rows, and the cache of legal moves is a finite set
    of coordinate pairs.  Exceptions and non-termination of the rejection
    sampling loop are results of their own. *)

From stdpp Require Import base tactics option list numbers strings gmap sets fin_sets.
From Stdlib Require Import ZArith Lia.

Local Open Scope string_scope.
Local Open Scope Z_scope.

(** ** Results of Python computations *)

Inductive exn : Type :=
  | IndexError
  | ValueError
  | ZeroDivisionError
  | NotImplementedError
  | SystemExit.

(** A computation returns a value, raises, or is still running when the
    iteration budget of a [while] loop is spent. *)
Inductive result (A : Type) : Type :=
  | Ok (a : A)
  | Raise (e : exn)
  | OutOfFuel.

Arguments Ok {A} a.
Arguments Raise {A} e.
Arguments OutOfFuel {A}.

#[global] Instance result_ret : MRet result := @Ok.
#[global] Instance result_bind : MBind result := λ A B f m,
  match m with
  | Ok a => f a
  | Raise e => Raise e
  | OutOfFuel => OutOfFuel
  end.

(** ** Python lists, [range] and [random.randrange] *)

Module Py.

(** The position a Python index denotes in a list of length [n]:
    negative indices count from the end. *)
Definition norm_index (n i : Z) : Z := if i <? 0 then i + n else i.

(** [l[i]] *)
Definition getitem {A} (l : list A) (i : Z) : result A :=
  let k := norm_index (Z.of_nat (length l)) i in
  if (0 <=? k) && (k <? Z.of_nat (length l)) then
    match l !! Z.to_nat k with
    | Some a => Ok a
    | None => Raise IndexError
    end
  else Raise IndexError.

(** [l[i] = v] *)
Definition setitem {A} (l : list A) (i : Z) (v : A) : result (list A) :=
  let k := norm_index (Z.of_nat (length l)) i in
  if (0 <=? k) && (k <? Z.of_nat (length l)) then Ok (<[Z.to_nat k := v]> l)
  else Raise IndexError.

(** [range(n)] *)
Definition range (n : Z) : list Z := seqZ 0 n.

(** [random.randrange(n)]: the generator is a sequence of raw draws and a
    cursor into it; an empty range raises [ValueError]. *)
Definition randrange (rng : nat → Z) (n : Z) (pos : nat) : result (Z * nat) :=
  if n <=? 0 then Raise ValueError else Ok (rng pos `mod` n, S pos).

(** [a // b] on integers: the floor of the quotient. *)
Definition floordiv (a b : Z) : result Z :=
  if decide (b = 0) then Raise ZeroDivisionError else Ok (a `div` b).

(** [for a in l: if body(a): return True], then falling through. *)
Fixpoint any_returns {A} (body : A → result bool) (l : list A) : result bool :=
  match l with
  | [] => Ok false
  | a :: l' =>
      r ← body a;
      if r : bool then Ok true else any_returns body l'
  end.

End Py.

(** ** The screen *)

Module Screen.

(** An RGB colour. *)
Definition color : Type := (Z * Z * Z)%type.

(** [pygame.Rect(left, top, width, height)] *)
Record rect : Type := Rect { left : Z; top : Z; width : Z; height : Z }.

(** Where a rendered text goes: centred on a rectangle, centred on the
    screen, or with its top-left corner at a point. *)
Inductive anchor : Type :=
  | CenterOf (r : rect)
  | CenterOfScreen
  | TopLeft (x y : Z).

(** The calls made on the display, in the order they are made; a font is
    named by its size. *)
Inductive op : Type :=
  | Fill (c : color)
  | DrawRect (c : color) (r : rect)
  | Blit (font : Z) (text : string) (c : color) (place : anchor)
  | Flip.

(** The dictionary of fonts the game builds: keys [X], [O] and [MSG]. *)
Record fonts : Type := Fonts { font_X : Z; font_O : Z; font_MSG : Z }.

End Screen.

(** ** 1. Board *)

Module Board.

Abbreviation grid := (list (list string)).

Record t : Type := mk {
  _rows : Z;
  _cols : Z;
  _win_len : Z;
  _num_obstacles : Z;
  _cells : grid;
  _legal : gset (Z * Z)
}.

(** [cells[i][j]] *)
Definition get (cells : grid) (i j : Z) : result string :=
  row ← Py.getitem cells i;
  Py.getitem row j.

(** [cells[i][j] = v]: the row object is fetched and updated in place. *)
Definition set (cells : grid) (i j : Z) (v : string) : result grid :=
  row ← Py.getitem cells i;
  row' ← Py.setitem row j v;
  Py.setitem cells i row'.

(** The [while placed < num_obstacles] loop of [_place_obstacles]. *)
Fixpoint place_loop (fuel : nat) (rng : nat → Z) (rows cols num_obstacles : Z)
    (cells : grid) (placed : Z) (pos : nat) : result (grid * nat) :=
  if placed <? num_obstacles then
    match fuel with
    | O => OutOfFuel
    | S fuel' =>
        '(i, pos) ← Py.randrange rng rows pos;
        '(j, pos) ← Py.randrange rng cols pos;
        c ← get cells i j;
        if decide (c = ".") then
          cells' ← set cells i j "#";
          place_loop fuel' rng rows cols num_obstacles cells' (placed + 1) pos
        else
          place_loop fuel' rng rows cols num_obstacles cells placed pos
    end
  else Ok (cells, pos).

Definition _place_obstacles (fuel : nat) (rng : nat → Z) (rows cols num_obstacles : Z)
    (cells : grid) (pos : nat) : result (grid * nat) :=
  place_loop fuel rng rows cols num_obstacles cells 0 pos.

(** [[(i, j) for i in range(rows) for j in range(cols)]] *)
Definition coords (rows cols : Z) : list (Z * Z) :=
  i ← Py.range rows; j ← Py.range cols; [(i, j)].

(** The set comprehension of [_init_board], coordinate by coordinate. *)
Fixpoint open_cells (cells : grid) (cs : list (Z * Z)) : result (list (Z * Z)) :=
  match cs with
  | [] => Ok []
  | (i, j) :: cs' =>
      c ← get cells i j;
      rest ← open_cells cells cs';
      Ok (if decide (c = ".") then (i, j) :: rest else rest)
  end.

(** [[['.' for _ in range(cols)] for _ in range(rows)]] *)
Definition empty_grid (rows cols : Z) : grid :=
  (λ _, (λ _, ".") <$> Py.range cols) <$> Py.range rows.

Definition _init_board (fuel : nat) (rng : nat → Z) (rows cols win_len num_obstacles : Z)
    (pos : nat) : result (t * nat) :=
  let cells := empty_grid rows cols in
  '(cells, pos) ← _place_obstacles fuel rng rows cols num_obstacles cells pos;
  legal ← open_cells cells (coords rows cols);
  Ok (mk rows cols win_len num_obstacles cells (list_to_set legal), pos).

Definition __init__ (fuel : nat) (rng : nat → Z) (rows cols win_len num_obstacles : Z)
    (pos : nat) : result (t * nat) :=
  _init_board fuel rng rows cols win_len num_obstacles pos.

Definition reset (fuel : nat) (rng : nat → Z) (b : t) (pos : nat) : result (t * nat) :=
  _init_board fuel rng (_rows b) (_cols b) (_win_len b) (_num_obstacles b) pos.

Definition is_legal_move (b : t) (i j : Z) : bool :=
  bool_decide ((i, j) ∈ _legal b).

Definition place_mark (b : t) (i j : Z) (sym : string) : result (bool * t) :=
  if decide ((i, j) ∈ _legal b) then
    cells' ← set (_cells b) i j sym;
    Ok (true, mk (_rows b) (_cols b) (_win_len b) (_num_obstacles b) cells'
                 (_legal b ∖ {[(i, j)]}))
  else Ok (false, b).

Definition is_full (b : t) : bool := bool_decide (_legal b = ∅).

Definition dirs : list (Z * Z) := [(1, 0); (0, 1); (1, 1); (1, -1)].

(** The inner [while] of [check_winner]: [Ok true] is the early
    [return True], [Ok false] the exit of the loop. *)
Fixpoint walk (fuel : nat) (b : t) (sym : string) (di dj : Z) (count x y : Z)
    : result bool :=
  match fuel with
  | O => OutOfFuel
  | S fuel' =>
      if (0 <=? x) && (x <? _rows b) && (0 <=? y) && (y <? _cols b) then
        c ← get (_cells b) x y;
        if decide (c = sym) then
          let count := count + 1 in
          if count >=? _win_len b then Ok true
          else walk fuel' b sym di dj count (x + di) (y + dj)
        else Ok false
      else Ok false
  end.

(** Iterations granted to the inner loop: it leaves the grid before. *)
Definition walk_fuel (b : t) : nat := S (Z.to_nat (_rows b) + Z.to_nat (_cols b)).

Definition check_winner (b : t) (sym : string) : result bool :=
  Py.any_returns (λ i,
    Py.any_returns (λ j,
      c ← get (_cells b) i j;
      if decide (c ≠ sym) then Ok false
      else
        Py.any_returns (λ '(di, dj),
          walk (walk_fuel b) b sym di dj 1 (i + di) (j + dj)) dirs)
      (Py.range (_cols b)))
    (Py.range (_rows b)).

(** The rectangle [draw] gives the cell in row [i] and column [j]. *)
Definition cell_rect (cell_size margin i j : Z) : Screen.rect :=
  Screen.Rect (margin + j * (cell_size + margin)) (margin + i * (cell_size + margin))
              cell_size cell_size.

(** The body of the loops of [draw]: the rectangle of the cell, grey for an
    obstacle and white otherwise, and the mark of [X] or [O] centred on it
    with the font [fonts[val]]. *)
Definition draw_cell (b : t) (cell_size margin : Z) (fonts : Screen.fonts) (i j : Z)
    : result (list Screen.op) :=
  let rect := cell_rect cell_size margin i j in
  val ← get (_cells b) i j;
  let color := if decide (val = "#") then (200, 200, 200) else (255, 255, 255) in
  if decide (val = "X") then
    Ok [Screen.DrawRect color rect;
        Screen.Blit (Screen.font_X fonts) val (200, 0, 0) (Screen.CenterOf rect)]
  else if decide (val = "O") then
    Ok [Screen.DrawRect color rect;
        Screen.Blit (Screen.font_O fonts) val (0, 0, 200) (Screen.CenterOf rect)]
  else Ok [Screen.DrawRect color rect].

Fixpoint draw_cells (b : t) (cell_size margin : Z) (fonts : Screen.fonts)
    (cs : list (Z * Z)) : result (list Screen.op) :=
  match cs with
  | [] => Ok []
  | (i, j) :: cs' =>
      ops ← draw_cell b cell_size margin fonts i j;
      rest ← draw_cells b cell_size margin fonts cs';
      Ok (ops ++ rest)%list
  end.

(** [draw]: the calls it makes on the screen, row by row. *)
Definition draw (b : t) (cell_size margin : Z) (fonts : Screen.fonts)
    : result (list Screen.op) :=
  draw_cells b cell_size margin fonts (coords (_rows b) (_cols b)).

End Board.

(** ** 2. Players *)

Module Player.

(** The base class and its one subclass. *)
Inductive t : Type :=
  | Player (symbol : string)
  | HumanPlayer (symbol : string).

Definition symbol (p : t) : string :=
  match p with
  | Player s => s
  | HumanPlayer s => s
  end.

(** [make_move]: the base class raises, the human player maps the pointer
    position to a row and a column and places the mark itself. *)
Definition make_move (p : t) (board : Board.t) (pos : Z * Z) (cell_size margin : Z)
    : result (bool * Board.t) :=
  match p with
  | Player _ => Raise NotImplementedError
  | HumanPlayer sym =>
      let '(x, y) := pos in
      j ← Py.floordiv (x - margin) (cell_size + margin);
      i ← Py.floordiv (y - margin) (cell_size + margin);
      Board.place_mark board i j sym
  end.

End Player.

(** ** 3. Game *)

Module Game.

Record t : Type := mk {
  _rows : Z;
  _cols : Z;
  _win_len : Z;
  _num_obstacles : Z;
  _board : Board.t;
  _players : list Player.t;
  _turn : Z;
  _cell_size : Z;
  _margin : Z;
  _game_over : bool;
  _winner : option string
}.

(** The events [run] distinguishes; [K_r] is the key code of [r]. *)
Inductive event : Type :=
  | QUIT
  | KEYDOWN (key : Z)
  | MOUSEBUTTONDOWN (pos : Z * Z)
  | OtherEvent.

Definition K_r : Z := 114.

Definition __init__ (fuel : nat) (rng : nat → Z) (pos : nat) : result (t * nat) :=
  let rows := 5 in
  let cols := 5 in
  let win_len := 4 in
  let num_obstacles := 5 in
  let cell_size := 80 in
  let margin := 5 in
  '(board, pos) ← Board.__init__ fuel rng rows cols win_len num_obstacles pos;
  Ok (mk rows cols win_len num_obstacles board
         [Player.HumanPlayer "X"; Player.HumanPlayer "O"] 0
         cell_size margin false None, pos).

Definition set_board (g : t) (b : Board.t) : t :=
  mk (_rows g) (_cols g) (_win_len g) (_num_obstacles g) b (_players g) (_turn g)
     (_cell_size g) (_margin g) (_game_over g) (_winner g).

Definition set_turn (g : t) (turn : Z) : t :=
  mk (_rows g) (_cols g) (_win_len g) (_num_obstacles g) (_board g) (_players g) turn
     (_cell_size g) (_margin g) (_game_over g) (_winner g).

Definition set_outcome (g : t) (game_over : bool) (winner : option string) : t :=
  mk (_rows g) (_cols g) (_win_len g) (_num_obstacles g) (_board g) (_players g) (_turn g)
     (_cell_size g) (_margin g) game_over winner.

(** The body of [for event in pygame.event.get()] in [run]; the cursor of
    the random generator is threaded through because a restart draws a new
    obstacle layout. *)
Definition handle_event (fuel : nat) (rng : nat → Z) (g : t) (pos : nat) (ev : event)
    : result (t * nat) :=
  match ev with
  | QUIT => Raise SystemExit
  | KEYDOWN key =>
      if _game_over g then
        if decide (key = K_r) then
          '(board, pos) ← Board.reset fuel rng (_board g) pos;
          Ok (set_outcome (set_turn (set_board g board) 0) false None, pos)
        else Ok (g, pos)
      else Ok (g, pos)
  | MOUSEBUTTONDOWN click =>
      if negb (_game_over g) then
        player ← Py.getitem (_players g) (_turn g);
        '(moved, board) ← Player.make_move player (_board g) click (_cell_size g) (_margin g);
        let g := set_board g board in
        if moved : bool then
          let sym := Player.symbol player in
          won ← Board.check_winner (_board g) sym;
          if won : bool then Ok (set_outcome g true (Some sym), pos)
          else if Board.is_full (_board g) then Ok (set_outcome g true None, pos)
          else Ok (set_turn g (1 - _turn g), pos)
        else Ok (g, pos)
      else Ok (g, pos)
  | OtherEvent => Ok (g, pos)
  end.


(** The size of the window [__init__] opens: the grid with its margins and
    a strip of 60 pixels below it. *)
Definition window_size (rows cols cell_size margin : Z) : Z * Z :=
  (cols * (cell_size + margin) + margin, rows * (cell_size + margin) + margin + 60).

(** The fonts [__init__] creates. *)
Definition fonts : Screen.fonts := Screen.Fonts 48 48 60.

(** The text [_draw] shows when the game is over: a winner that is [None]
    or the empty string counts as no winner. *)
Definition message (winner : option string) : string :=
  match winner with
  | Some w => if decide (w = "") then "Draw!" else w +:+ " wins!"
  | None => "Draw!"
  end.

(** [_draw]: the calls it makes on a screen of the given height. *)
Definition _draw (g : t) (fonts : Screen.fonts) (screen_height : Z)
    : result (list Screen.op) :=
  board_ops ← Board.draw (_board g) (_cell_size g) (_margin g) fonts;
  let banner :=
    if _game_over g then
      [Screen.Blit (Screen.font_MSG fonts) (message (_winner g)) (0, 255, 0)
                   Screen.CenterOfScreen;
       Screen.Blit (Screen.font_MSG fonts) "Press R to restart" (200, 200, 200)
                   (Screen.TopLeft 10 (screen_height - 50))]
    else [] in
  Ok (Screen.Fill (0, 0, 0) :: board_ops ++ banner ++ [Screen.Flip])%list.

End Game.

(** ** Specification vocabulary *)

(** The content of an in-grid cell; [None] outside the stored grid. *)
Definition cell (cells : Board.grid) (i j : Z) : option string :=
  if decide (0 ≤ i ∧ 0 ≤ j) then
    row ← cells !! Z.to_nat i; row !! Z.to_nat j
  else None.

Definition in_bounds (rows cols i j : Z) : Prop :=
  0 ≤ i < rows ∧ 0 ≤ j < cols.

(** The grid is [rows] lists of [cols] cells. *)
Definition shape_ok (rows cols : Z) (cells : Board.grid) : Prop :=
  0 ≤ rows ∧ 0 ≤ cols ∧
  length cells = Z.to_nat rows ∧
  Forall (λ row, length row = Z.to_nat cols) cells.

(** Coordinates of the grid whose cell satisfies [p]. *)
Definition cells_where (p : string → bool) (rows cols : Z) (cells : Board.grid)
    : list (Z * Z) :=
  filter (λ ij, from_option p false (cell cells ij.1 ij.2) = true) (Board.coords rows cols).

Definition is_empty (c : string) : bool := bool_decide (c = ".").
Definition is_obstacle (c : string) : bool := bool_decide (c = "#").
Definition is_mark (c : string) : bool := negb (is_empty c) && negb (is_obstacle c).

Definition count_cells (p : string → bool) (b : Board.t) : Z :=
  Z.of_nat (length (cells_where p (Board._rows b) (Board._cols b) (Board._cells b))).

(** Boards whose legal moves all lie inside a grid of the declared shape. *)
Definition well_formed (b : Board.t) : Prop :=
  shape_ok (Board._rows b) (Board._cols b) (Board._cells b) ∧
  Board._legal b ⊆ list_to_set (Board.coords (Board._rows b) (Board._cols b)).

(** The board invariant: the cache of legal moves is the set of empty cells. *)
Definition Board_inv (b : Board.t) : Prop :=
  shape_ok (Board._rows b) (Board._cols b) (Board._cells b) ∧
  Board._legal b =
    list_to_set (cells_where is_empty (Board._rows b) (Board._cols b) (Board._cells b)).

(** The three classes of a coordinate. *)
Definition is_open (b : Board.t) (i j : Z) : Prop :=
  (i, j) ∈ Board._legal b ∧ cell (Board._cells b) i j = Some ".".
Definition is_marked (b : Board.t) (i j : Z) : Prop :=
  ((i, j) ∉ Board._legal b) ∧
  ∃ c, cell (Board._cells b) i j = Some c ∧ is_mark c = true.
Definition is_blocked (b : Board.t) (i j : Z) : Prop :=
  ((i, j) ∉ Board._legal b) ∧ cell (Board._cells b) i j = Some "#".

(** The four lines through a cell. *)
Inductive direction : Type := Vertical | Horizontal | Diagonal | AntiDiagonal.

Definition delta (d : direction) : Z * Z :=
  match d with
  | Vertical => (1, 0)
  | Horizontal => (0, 1)
  | Diagonal => (1, 1)
  | AntiDiagonal => (1, -1)
  end.

(** [len] consecutive cells from [(i, j)] along [d], all inside the grid and
    all holding [sym]. *)
Definition run_at (b : Board.t) (sym : string) (i j : Z) (d : direction) (len : Z) : Prop :=
  ∀ k, 0 ≤ k < len →
    in_bounds (Board._rows b) (Board._cols b) (i + k * (delta d).1) (j + k * (delta d).2) ∧
    cell (Board._cells b) (i + k * (delta d).1) (j + k * (delta d).2) = Some sym.

(** A run of [sym] of at least [n] cells (and at least one). *)
Definition has_run (b : Board.t) (sym : string) (n : Z) : Prop :=
  ∃ i j d len, 1 ≤ len ∧ n ≤ len ∧ run_at b sym i j d len.

(** Every cell of the grid is drawn in one of the first [fuel] iterations of
    the placement loop started at cursor [pos]. *)
Definition covers (rng : nat → Z) (rows cols : Z) (pos fuel : nat) : Prop :=
  Forall (λ ij, Exists (λ k, rng (pos + 2 * k)%nat `mod` rows = ij.1 ∧
                             rng (pos + 2 * k + 1)%nat `mod` cols = ij.2) (seq 0 fuel))
         (Board.coords rows cols).

(** Controller states the game reaches: two human players, a turn that is
    one of their indices, a cell pitch that is positive, a well-formed board. *)
Definition Game_ok (g : Game.t) : Prop :=
  Game._players g = [Player.HumanPlayer "X"; Player.HumanPlayer "O"] ∧
  (Game._turn g = 0 ∨ Game._turn g = 1) ∧
  0 < Game._cell_size g + Game._margin g ∧
  well_formed (Game._board g).

(** The row or column a pointer coordinate falls in. *)
Definition grid_index (coordinate cell_size margin : Z) : Z :=
  (coordinate - margin) `div` (cell_size + margin).

(** The grid after [cells[i][j] = v] at an in-grid position. *)
Definition update (cells : Board.grid) (i j : Z) (v : string) : Board.grid :=
  alter (λ row, <[Z.to_nat j := v]> row) (Z.to_nat i) cells.

(** The invariant of the placement loop: a grid of empty cells and
    obstacles, [placed] of them obstacles. *)
Definition placing (rows cols : Z) (cells : Board.grid) (placed : Z) : Prop :=
  shape_ok rows cols cells ∧
  (∀ i j c, cell cells i j = Some c → c = "." ∨ c = "#") ∧
  placed = Z.of_nat (length (cells_where is_obstacle rows cols cells)).

(** The body of the scan of [check_winner] at one origin cell. *)
Definition scan_cell (b : Board.t) (sym : string) (i j : Z) : result bool :=
  c ← Board.get (Board._cells b) i j;
  if decide (c ≠ sym) then Ok false
  else Py.any_returns (λ '(di, dj),
         Board.walk (Board.walk_fuel b) b sym di dj 1 (i + di) (j + dj)) Board.dirs.

(** A board as initialisation leaves it: [n] obstacles, no mark, every
    other cell empty and open. *)
Definition fresh_board (rows cols win_len n : Z) (b : Board.t) : Prop :=
  Board._rows b = rows ∧ Board._cols b = cols ∧
  Board._win_len b = win_len ∧ Board._num_obstacles b = n ∧
  Board_inv b ∧
  count_cells is_obstacle b = n ∧
  count_cells is_mark b = 0 ∧
  count_cells is_empty b = rows * cols - n ∧
  Z.of_nat (size (Board._legal b)) = rows * cols - n.

(** Boards the operations produce: constructed with non-negative
    dimensions, then reset or marked with a player's symbol. *)
Inductive reachable : Board.t → Prop :=
  | reach_init fuel rng rows cols win_len n pos b pos' :
      0 ≤ rows → 0 ≤ cols →
      Board.__init__ fuel rng rows cols win_len n pos = Ok (b, pos') →
      reachable b
  | reach_reset fuel rng b pos b' pos' :
      reachable b →
      Board.reset fuel rng b pos = Ok (b', pos') →
      reachable b'
  | reach_place_mark b i j sym moved b' :
      reachable b → is_mark sym = true →
      Board.place_mark b i j sym = Ok (moved, b') →
      reachable b'.

(** ** Sample boards and draws *)

(** Draws that sweep a grid of [rows] rows, one column after the other. *)
Definition sweep (rows : Z) (p : nat) : Z :=
  if Nat.even p then Z.of_nat (p / 2) else Z.of_nat (p / 2) `div` rows.

(** A 3×3 board with one obstacle and one mark of [X]. *)
Definition sample_board : Board.t :=
  Board.mk 3 3 3 1
    [["#"; "."; "."]; ["."; "X"; "."]; ["."; "."; "."]]
    (list_to_set [(0, 1); (0, 2); (1, 0); (1, 2); (2, 0); (2, 1); (2, 2)]).

(** A game on it, [O] to move. *)
Definition sample_game : Game.t :=
  Game.mk 3 3 3 1 sample_board [Player.HumanPlayer "X"; Player.HumanPlayer "O"] 1
          80 5 false None.

(** The 1×1 board with win length 1, before and after the only move. *)
Definition unit_board : Board.t := Board.mk 1 1 1 0 [["."]] {[(0, 0)]}.
Definition unit_board_X : Board.t := Board.mk 1 1 1 0 [["X"]] ∅.

(** The sample game once [X] has won. *)
Definition sample_game_over : Game.t :=
  Game.mk 3 3 3 1 sample_board [Player.HumanPlayer "X"; Player.HumanPlayer "O"] 1
          80 5 true (Some "X").

(** The symbol of the player whose turn it is. *)
Definition active_symbol (g : Game.t) : string :=
  if decide (Game._turn g = 0) then "X" else "O".

(** The number of cells of the grid that hold [s]. *)
Definition count_sym (s : string) (b : Board.t) : Z :=
  count_cells (λ c, bool_decide (c = s)) b.

(** The symbol of the player who is not to move. *)
Definition waiting_symbol (g : Game.t) : string :=
  if decide (Game._turn g = 0) then "O" else "X".

(** A 1×1 board whose only cell is an obstacle. *)
Definition blocked_board : Board.t := Board.mk 1 1 1 1 [["#"]] ∅.

(** What holds of the controller between events: the board of the
    configured game with its five obstacles, marks of [X] and [O] only, as
    many of each as the turn tells, and a terminal flag that is set exactly
    when the player who moved last has won or the board is full. *)
Definition Game_inv (g : Game.t) : Prop :=
  Game_ok g ∧ Board_inv (Game._board g) ∧
  Board._rows (Game._board g) = 5 ∧ Board._cols (Game._board g) = 5 ∧
  Board._win_len (Game._board g) = 4 ∧ Board._num_obstacles (Game._board g) = 5 ∧
  count_cells is_obstacle (Game._board g) = 5 ∧
  count_cells is_mark (Game._board g) =
    count_sym "X" (Game._board g) + count_sym "O" (Game._board g) ∧
  Board.check_winner (Game._board g) (waiting_symbol g) = Ok false ∧
  (Game._game_over g = false →
     Game._winner g = None ∧
     count_sym "X" (Game._board g) = count_sym "O" (Game._board g) + Game._turn g ∧
     Board.is_full (Game._board g) = false ∧
     Board.check_winner (Game._board g) (active_symbol g) = Ok false) ∧
  (Game._game_over g = true →
     count_sym "X" (Game._board g) + Game._turn g = count_sym "O" (Game._board g) + 1 ∧
     ((Game._winner g = Some (active_symbol g) ∧
       Board.check_winner (Game._board g) (active_symbol g) = Ok true) ∨
      (Game._winner g = None ∧ Board.is_full (Game._board g) = true ∧
       Board.check_winner (Game._board g) (active_symbol g) = Ok false))).

(** Controller states a session reaches: constructed, then one handled
    event after the other. *)
Inductive game_reachable : Game.t → Prop :=
  | game_constructed fuel rng pos g pos' :
      Game.__init__ fuel rng pos = Ok (g, pos') →
      game_reachable g
  | game_handled fuel rng g pos ev g' pos' :
      game_reachable g →
      Game.handle_event fuel rng g pos ev = Ok (g', pos') →
      game_reachable g'.

(** The game as constructed with draws that sweep the grid, and the same
    game after a click on the middle cell. *)
Definition started_game : Game.t :=
  Eval vm_compute in
    match Game.__init__ 25 (sweep 5) 0 with
    | Ok (g, _) => g
    | _ => sample_game
    end.

Definition started_game_moved : Game.t :=
  Eval vm_compute in
    match Game.handle_event 0 (sweep 5) started_game 10 (Game.MOUSEBUTTONDOWN (200, 200)) with
    | Ok (g, _) => g
    | _ => sample_game
    end.

(** The pixels of a rectangle. *)
Definition in_rect (r : Screen.rect) (x y : Z) : Prop :=
  Screen.left r ≤ x < Screen.left r + Screen.width r ∧
  Screen.top r ≤ y < Screen.top r + Screen.height r.

(** The rectangles drawn by a sequence of calls, in order. *)
Definition rects_of (ops : list Screen.op) : list Screen.rect :=
  omap (λ o, match o with Screen.DrawRect _ r => Some r | _ => None end) ops.

(** The rectangles drawn in the colour [c]. *)
Definition rects_in (c : Screen.color) (ops : list Screen.op) : list Screen.rect :=
  omap (λ o, match o with
             | Screen.DrawRect c' r => if decide (c' = c) then Some r else None
             | _ => None
             end) ops.

(** The texts shown by a sequence of calls, in order. *)
Definition texts_of (ops : list Screen.op) : list string :=
  omap (λ o, match o with Screen.Blit _ text _ _ => Some text | _ => None end) ops.

(** The calls [draw] makes for a cell that holds [val]. *)
Definition cell_ops (fonts : Screen.fonts) (r : Screen.rect) (val : string)
    : list Screen.op :=
  let color := if decide (val = "#") then (200, 200, 200) else (255, 255, 255) in
  if decide (val = "X") then
    [Screen.DrawRect color r; Screen.Blit (Screen.font_X fonts) val (200, 0, 0) (Screen.CenterOf r)]
  else if decide (val = "O") then
    [Screen.DrawRect color r; Screen.Blit (Screen.font_O fonts) val (0, 0, 200) (Screen.CenterOf r)]
  else [Screen.DrawRect color r].

(** ** The result monad *)

Lemma bind_Ok {A B} (a : A) (f : A → result B) : Ok a ≫= f = f a.
Proof. done. Qed.

(** ** Python lists inside their bounds *)

Section PyLists.
Context {A : Type}.
Implicit Types (l : list A) (i : Z).

Lemma getitem_lookup l i a :
  0 ≤ i → l !! Z.to_nat i = Some a → Py.getitem l i = Ok a.
Proof.
  intros Hi Hl. pose proof (lookup_lt_Some _ _ _ Hl) as Hlen.
  unfold Py.getitem, Py.norm_index.
  destruct (Z.ltb_spec i 0); [lia|].
  destruct (Z.leb_spec 0 i); [|lia].
  destruct (Z.ltb_spec i (Z.of_nat (length l))); [|lia].
  simpl. by rewrite Hl.
Qed.

Lemma setitem_insert l i v :
  0 ≤ i < Z.of_nat (length l) → Py.setitem l i v = Ok (<[Z.to_nat i := v]> l).
Proof.
  intros Hi. unfold Py.setitem, Py.norm_index.
  destruct (Z.ltb_spec i 0); [lia|].
  destruct (Z.leb_spec 0 i); [|lia].
  destruct (Z.ltb_spec i (Z.of_nat (length l))); [|lia].
  done.
Qed.

Lemma any_returns_true (body : A → result bool) l :
  Py.any_returns body l = Ok true → ∃ a, a ∈ l ∧ body a = Ok true.
Proof.
  induction l as [|a l IH]; simpl; [done|].
  destruct (body a) as [[|]| |] eqn:Hb; simpl; try done.
  - intros _. exists a. split; [left|done].
  - intros H. destruct (IH H) as (a' & ? & ?). exists a'. split; [by right|done].
Qed.

Lemma any_returns_total (body : A → result bool) l :
  (∀ a, a ∈ l → ∃ v, body a = Ok v) → ∃ v, Py.any_returns body l = Ok v.
Proof.
  induction l as [|a l IH]; simpl; intros Hb; [by eexists|].
  destruct (Hb a) as [v Hv]; [left|]. rewrite Hv. simpl.
  destruct v; [by eexists|]. apply IH. intros a' Ha'. apply Hb. by right.
Qed.

Lemma any_returns_found (body : A → result bool) l a :
  (∀ a, a ∈ l → ∃ v, body a = Ok v) → a ∈ l → body a = Ok true →
  Py.any_returns body l = Ok true.
Proof.
  induction l as [|a' l IH]; simpl; intros Hb Ha Htrue; [by inversion Ha|].
  destruct (Hb a') as [v Hv]; [left|]. rewrite Hv. simpl.
  destruct v; [done|].
  apply IH; [intros; apply Hb; by right| |done].
  inversion Ha; subst; [congruence|done].
Qed.

End PyLists.

(** ** The grid inside its bounds *)

Section Grid.
Implicit Types (cells : Board.grid) (i j rows cols : Z) (c v : string).

Lemma cell_Some cells i j c :
  cell cells i j = Some c ↔
  0 ≤ i ∧ 0 ≤ j ∧ ∃ row, cells !! Z.to_nat i = Some row ∧ row !! Z.to_nat j = Some c.
Proof.
  unfold cell. case_decide as Hij.
  - destruct (cells !! Z.to_nat i) as [row|] eqn:Hrow; simpl.
    + split; [intros H; repeat split; try lia; eauto|].
      intros (_ & _ & row' & Hr & Hc). by simplify_eq.
    + split; [done|]. by intros (_ & _ & row' & Hr & Hc).
  - split; [done|]. intros (? & ? & _). lia.
Qed.

Lemma get_cell cells i j c : cell cells i j = Some c → Board.get cells i j = Ok c.
Proof.
  intros (Hi & Hj & row & Hrow & Hc)%cell_Some. unfold Board.get.
  rewrite (getitem_lookup _ _ _ Hi Hrow). simpl. by apply getitem_lookup.
Qed.

Lemma cell_in_bounds rows cols cells i j :
  shape_ok rows cols cells → in_bounds rows cols i j → is_Some (cell cells i j).
Proof.
  intros (Hr & Hc & Hlen & Hrows) [Hi Hj].
  destruct (lookup_lt_is_Some_2 cells (Z.to_nat i)) as [row Hrow]; [lia|].
  assert (length row = Z.to_nat cols) as Hrl.
  { eapply (Forall_lookup_1 _ _ _ _ Hrows Hrow). }
  destruct (lookup_lt_is_Some_2 row (Z.to_nat j)) as [c Hcell]; [lia|].
  exists c. apply cell_Some. repeat split; try lia. eauto.
Qed.

Lemma cell_bounds rows cols cells i j c :
  shape_ok rows cols cells → cell cells i j = Some c → in_bounds rows cols i j.
Proof.
  intros (Hr & Hc & Hlen & Hrows) (Hi & Hj & row & Hrow & Hcell)%cell_Some.
  pose proof (lookup_lt_Some _ _ _ Hrow).
  pose proof (lookup_lt_Some _ _ _ Hcell) as Hlt.
  rewrite (Forall_lookup_1 _ _ _ _ Hrows Hrow) in Hlt.
  unfold in_bounds. lia.
Qed.

Lemma get_in_bounds rows cols cells i j :
  shape_ok rows cols cells → in_bounds rows cols i j →
  ∃ c, cell cells i j = Some c ∧ Board.get cells i j = Ok c.
Proof.
  intros Hs Hb. destruct (cell_in_bounds _ _ _ _ _ Hs Hb) as [c Hc].
  exists c. split; [done|by apply get_cell].
Qed.

Lemma set_update rows cols cells i j v :
  shape_ok rows cols cells → in_bounds rows cols i j →
  Board.set cells i j v = Ok (update cells i j v).
Proof.
  intros Hs Hb. destruct (cell_in_bounds _ _ _ _ _ Hs Hb) as [c Hc].
  apply cell_Some in Hc as (Hi & Hj & row & Hrow & Hcell).
  pose proof (lookup_lt_Some _ _ _ Hrow).
  pose proof (lookup_lt_Some _ _ _ Hcell).
  unfold Board.set. rewrite (getitem_lookup _ _ _ Hi Hrow). simpl.
  rewrite setitem_insert by lia. simpl.
  rewrite setitem_insert by lia. f_equal. unfold update.
  rewrite list_insert_alter. apply list_eq. intros k.
  destruct (decide (Z.to_nat i = k)) as [<-|Hk].
  - rewrite list_lookup_alter_eq, Hrow. by rewrite list_lookup_alter_eq, Hrow.
  - rewrite list_lookup_alter_ne by done. by rewrite list_lookup_alter_ne.
Qed.

Lemma shape_update rows cols cells i j v :
  shape_ok rows cols cells → shape_ok rows cols (update cells i j v).
Proof.
  intros (Hr & Hc & Hlen & Hrows). unfold update. repeat split; try done.
  - by rewrite length_alter.
  - apply Forall_alter; [done|]. intros row _ Hl. by rewrite length_insert.
Qed.

Lemma cell_update_eq rows cols cells i j v :
  shape_ok rows cols cells → in_bounds rows cols i j →
  cell (update cells i j v) i j = Some v.
Proof.
  intros Hs Hb. destruct (cell_in_bounds _ _ _ _ _ Hs Hb) as [c Hc].
  apply cell_Some in Hc as (Hi & Hj & row & Hrow & Hcell).
  apply cell_Some. repeat split; try done.
  exists (<[Z.to_nat j := v]> row). unfold update. split.
  - by rewrite list_lookup_alter_eq, Hrow.
  - apply list_lookup_insert_eq. by eapply lookup_lt_Some.
Qed.

Lemma cell_update_ne cells i j v i' j' :
  0 ≤ i → 0 ≤ j → (i', j') ≠ (i, j) →
  cell (update cells i j v) i' j' = cell cells i' j'.
Proof.
  intros Hi Hj Hne. unfold cell, update. case_decide as Hij; [|done].
  destruct (decide (Z.to_nat i = Z.to_nat i')) as [Heq|Hneq].
  - rewrite <-Heq, list_lookup_alter_eq.
    destruct (cells !! Z.to_nat i) as [row|]; simpl; [|done].
    apply list_lookup_insert_ne. intros Hj'. apply Hne. f_equal; lia.
  - by rewrite list_lookup_alter_ne.
Qed.

Lemma elem_of_coords rows cols i j :
  (i, j) ∈ Board.coords rows cols ↔ in_bounds rows cols i j.
Proof.
  unfold Board.coords, Py.range, in_bounds. rewrite list_elem_of_bind. split.
  - intros (i' & Hj & Hi). apply list_elem_of_bind in Hj as (j' & Hij & Hj).
    apply list_elem_of_singleton in Hij. simplify_eq.
    apply elem_of_seqZ in Hi, Hj. lia.
  - intros [Hi Hj]. exists i. split; [|apply elem_of_seqZ; lia].
    apply list_elem_of_bind. exists j. split; [by apply list_elem_of_singleton|].
    apply elem_of_seqZ; lia.
Qed.

Lemma NoDup_coords rows cols : NoDup (Board.coords rows cols).
Proof.
  unfold Board.coords, Py.range. apply NoDup_bind.
  - intros i i' ab _ _ H1 H2.
    apply list_elem_of_bind in H1 as (? & ?%list_elem_of_singleton & _).
    apply list_elem_of_bind in H2 as (? & ?%list_elem_of_singleton & _).
    by simplify_eq.
  - intros i _. apply NoDup_bind.
    + intros j j' ab _ _ ?%list_elem_of_singleton ?%list_elem_of_singleton.
      by simplify_eq.
    + intros j _. apply NoDup_singleton.
    + apply NoDup_seqZ.
  - apply NoDup_seqZ.
Qed.

Lemma length_coords rows cols :
  0 ≤ rows → 0 ≤ cols → Z.of_nat (length (Board.coords rows cols)) = rows * cols.
Proof.
  intros Hr Hc. unfold Board.coords, Py.range.
  assert (∀ l : list Z, length (l ≫= λ i, seqZ 0 cols ≫= λ j, [(i, j)])
                        = (length l * Z.to_nat cols)%nat) as Hlen.
  { induction l as [|i l IH]; [done|]. rewrite bind_cons, length_app, IH. simpl.
    f_equal. generalize (seqZ 0 cols) (length_seqZ 0 cols). intros l' <-.
    induction l' as [|j l' IH']; [done|]. rewrite bind_cons. simpl. by f_equal. }
  rewrite Hlen, length_seqZ. lia.
Qed.

End Grid.

(** ** Win detection *)

Section CheckWinner.
Variable b : Board.t.
Variable sym : string.
Hypothesis Hshape : shape_ok (Board._rows b) (Board._cols b) (Board._cells b).

Let rows := Board._rows b.
Let cols := Board._cols b.

(** The guard of the inner loop holds exactly inside the grid. *)
Lemma guard_in_bounds x y :
  (0 <=? x) && (x <? rows) && (0 <=? y) && (y <? cols) = true ↔ in_bounds rows cols x y.
Proof. unfold in_bounds. rewrite !andb_true_iff. lia. Qed.

(** The inner loop leaves the grid before its budget is spent. *)
Lemma walk_total fuel di dj count x y :
  (di = 1 ∧ (Z.to_nat (rows - x) < fuel)%nat) ∨
  (di = 0 ∧ dj = 1 ∧ (Z.to_nat (cols - y) < fuel)%nat) →
  ∃ v, Board.walk fuel b sym di dj count x y = Ok v.
Proof.
  revert count x y. induction fuel as [|fuel IH]; intros count x y Hfuel; [lia|].
  simpl. fold rows cols.
  destruct ((0 <=? x) && (x <? rows) && (0 <=? y) && (y <? cols)) eqn:Hg; [|by eexists].
  apply guard_in_bounds in Hg.
  destruct (get_in_bounds _ _ _ _ _ Hshape Hg) as (c & _ & ->). simpl.
  case_decide; [|by eexists].
  destruct (count + 1 >=? Board._win_len b); [by eexists|].
  apply IH. unfold in_bounds in Hg. lia.
Qed.

(** An early [return True] has seen a run. *)
Lemma walk_true_run fuel di dj count x y :
  Board.walk fuel b sym di dj count x y = Ok true →
  ∃ n, 0 ≤ n ∧ Board._win_len b ≤ count + n + 1 ∧
    ∀ k, 0 ≤ k ≤ n →
      in_bounds rows cols (x + k * di) (y + k * dj) ∧
      cell (Board._cells b) (x + k * di) (y + k * dj) = Some sym.
Proof.
  revert count x y. induction fuel as [|fuel IH]; intros count x y; [done|].
  simpl. fold rows cols.
  destruct ((0 <=? x) && (x <? rows) && (0 <=? y) && (y <? cols)) eqn:Hg; [|done].
  apply guard_in_bounds in Hg.
  destruct (get_in_bounds _ _ _ _ _ Hshape Hg) as (c & Hc & ->). simpl.
  case_decide as Hsym; [subst c|done].
  destruct (Z.geb_spec (count + 1) (Board._win_len b)) as [Hwin|Hwin].
  - intros _. exists 0. split; [lia|]. split; [lia|].
    intros k Hk. assert (k = 0) as -> by lia. by rewrite !Z.add_0_r.
  - intros (n & Hn & Hlen & Hrun)%IH. exists (n + 1). split; [lia|]. split; [lia|].
    intros k Hk. destruct (decide (k = 0)) as [->|Hk0].
    + by rewrite !Z.add_0_r.
    + specialize (Hrun (k - 1)).
      replace (x + di + (k - 1) * di) with (x + k * di) in Hrun by lia.
      replace (y + dj + (k - 1) * dj) with (y + k * dj) in Hrun by lia.
      apply Hrun. lia.
Qed.

(** Along a long enough run the inner loop returns [True]. *)
Lemma walk_run_true fuel di dj count x y n :
  0 ≤ n → (Z.to_nat n < fuel)%nat → Board._win_len b ≤ count + n + 1 →
  (∀ k, 0 ≤ k ≤ n →
     in_bounds rows cols (x + k * di) (y + k * dj) ∧
     cell (Board._cells b) (x + k * di) (y + k * dj) = Some sym) →
  Board.walk fuel b sym di dj count x y = Ok true.
Proof.
  revert count x y n.
  induction fuel as [|fuel IH]; intros count x y n Hn Hfuel Hlen Hrun; [lia|].
  simpl. fold rows cols.
  destruct (Hrun 0) as [Hb Hc]; [lia|]. rewrite !Z.add_0_r in Hb, Hc.
  apply guard_in_bounds in Hb as ->. rewrite (get_cell _ _ _ _ Hc). simpl.
  rewrite decide_True by done.
  destruct (Z.geb_spec (count + 1) (Board._win_len b)) as [Hwin|Hwin]; [done|].
  apply (IH _ _ _ (n - 1)); try lia.
  intros k Hk. specialize (Hrun (k + 1)).
  replace (x + (k + 1) * di) with (x + di + k * di) in Hrun by lia.
  replace (y + (k + 1) * dj) with (y + dj + k * dj) in Hrun by lia.
  apply Hrun. lia.
Qed.

Lemma delta_dirs d : delta d ∈ Board.dirs.
Proof. destruct d; unfold Board.dirs; set_solver. Qed.

Lemma dirs_delta dd : dd ∈ Board.dirs → ∃ d, dd = delta d.
Proof.
  unfold Board.dirs. rewrite !elem_of_cons, elem_of_nil.
  intros [->|[->|[->|[->|[]]]]];
    [by exists Vertical|by exists Horizontal|by exists Diagonal|by exists AntiDiagonal].
Qed.

Lemma walk_dirs_total d count i j :
  0 ≤ i → 0 ≤ j →
  ∃ v, Board.walk (Board.walk_fuel b) b sym (delta d).1 (delta d).2 count
                  (i + (delta d).1) (j + (delta d).2) = Ok v.
Proof.
  intros Hi Hj. apply walk_total. unfold Board.walk_fuel. fold rows cols.
  destruct d; simpl; lia.
Qed.

Lemma scan_cell_total i j : in_bounds rows cols i j → ∃ v, scan_cell b sym i j = Ok v.
Proof.
  intros Hb. unfold scan_cell.
  destruct (get_in_bounds _ _ _ _ _ Hshape Hb) as (c & _ & ->). rewrite bind_Ok.
  case_decide; [by eexists|]. apply any_returns_total.
  intros dd (d & ->)%dirs_delta. destruct (delta d) as [di dj] eqn:Hd.
  pose proof (walk_dirs_total d 1 i j) as Hw. rewrite Hd in Hw.
  apply Hw; unfold in_bounds in Hb; lia.
Qed.

Lemma scan_cell_true i j :
  in_bounds rows cols i j → scan_cell b sym i j = Ok true →
  has_run b sym (Z.max 2 (Board._win_len b)).
Proof.
  intros Hb. unfold scan_cell.
  destruct (get_in_bounds _ _ _ _ _ Hshape Hb) as (c & Hc & ->). rewrite bind_Ok.
  case_decide as Hsym; [done|]. subst c.
  intros (dd & (d & ->)%dirs_delta & Hw)%any_returns_true.
  destruct (delta d) as [di dj] eqn:Hd.
  apply walk_true_run in Hw as (n & Hn & Hlen & Hrun).
  exists i, j, d, (n + 2). split; [lia|]. split; [lia|].
  intros k Hk. rewrite Hd. simpl. destruct (decide (k = 0)) as [->|Hk0].
  - by rewrite !Z.add_0_r.
  - specialize (Hrun (k - 1)).
    replace (i + di + (k - 1) * di) with (i + k * di) in Hrun by lia.
    replace (j + dj + (k - 1) * dj) with (j + k * dj) in Hrun by lia.
    apply Hrun. lia.
Qed.

Lemma scan_cell_run i j d len :
  2 ≤ len → Board._win_len b ≤ len → run_at b sym i j d len →
  in_bounds rows cols i j ∧ scan_cell b sym i j = Ok true.
Proof.
  intros Hlen Hwin Hrun.
  destruct (Hrun 0) as [Hb Hc]; [lia|]. rewrite !Z.mul_0_l, !Z.add_0_r in Hb, Hc.
  split; [done|]. unfold scan_cell. rewrite (get_cell _ _ _ _ Hc), bind_Ok.
  rewrite decide_False by (intros Hne; by apply Hne).
  apply any_returns_found with (a := delta d).
  - intros dd (d' & ->)%dirs_delta. destruct (delta d') as [di dj] eqn:Hd.
    pose proof (walk_dirs_total d' 1 i j) as Hw. rewrite Hd in Hw.
    apply Hw; unfold in_bounds in Hb; lia.
  - apply delta_dirs.
  - destruct (delta d) as [di dj] eqn:Hd.
    unfold run_at in Hrun. rewrite Hd in Hrun. simpl in Hrun.
    apply walk_run_true with (n := len - 2); try lia.
    + unfold Board.walk_fuel. fold rows cols.
      destruct (Hrun (len - 1)) as [Hlast _]; [lia|]. unfold in_bounds in Hb, Hlast.
      destruct d; simplify_eq/=; lia.
    + intros k Hk. specialize (Hrun (k + 1)).
      replace (i + (k + 1) * di) with (i + di + k * di) in Hrun by lia.
      replace (j + (k + 1) * dj) with (j + dj + k * dj) in Hrun by lia.
      apply Hrun. lia.
Qed.

Lemma check_winner_scan :
  Board.check_winner b sym =
  Py.any_returns (λ i, Py.any_returns (λ j, scan_cell b sym i j) (Py.range cols)) (Py.range rows).
Proof. done. Qed.

(** [check_winner] returns, and returns [True] exactly when [sym] has a run
    of at least [win_len] cells that is at least two cells long. *)
Lemma check_winner_spec :
  ∃ v, Board.check_winner b sym = Ok v ∧
       (v = true ↔ has_run b sym (Z.max 2 (Board._win_len b))).
Proof.
  rewrite check_winner_scan.
  assert (∀ i, i ∈ Py.range rows →
            ∀ j, j ∈ Py.range cols → ∃ v, scan_cell b sym i j = Ok v) as Hcell.
  { intros i Hi%elem_of_seqZ j Hj%elem_of_seqZ. apply scan_cell_total.
    unfold in_bounds. lia. }
  assert (∀ i, i ∈ Py.range rows →
            ∃ v, Py.any_returns (λ j, scan_cell b sym i j) (Py.range cols) = Ok v) as Hrow.
  { intros i Hi. apply any_returns_total. intros j Hj. by apply Hcell. }
  destruct (any_returns_total _ _ Hrow) as [v Hv]. exists v. split; [done|]. split.
  - intros ->.
    apply any_returns_true in Hv as (i & Hi%elem_of_seqZ & Hv).
    apply any_returns_true in Hv as (j & Hj%elem_of_seqZ & Hv).
    apply (scan_cell_true i j); [unfold in_bounds; lia|done].
  - intros (i & j & d & len & _ & Hlen & Hrun).
    destruct (scan_cell_run i j d len) as [[Hi Hj] Hscan]; [lia|lia|done|].
    rewrite (any_returns_found _ _ i Hrow) in Hv; [by simplify_eq| |].
    + apply elem_of_seqZ. lia.
    + apply any_returns_found with (a := j); [by apply Hcell; apply elem_of_seqZ; lia| |done].
      apply elem_of_seqZ. lia.
Qed.

End CheckWinner.

(** ** Counting cells *)

Section Filter.
Context {A : Type}.
Context (P Q : A → Prop) `{!∀ x, Decision (P x), !∀ x, Decision (Q x)}.

Lemma filter_length_agree (l : list A) :
  (∀ y, y ∈ l → P y ↔ Q y) → length (filter Q l) = length (filter P l).
Proof.
  induction l as [|y l IH]; intros Hl; [done|].
  rewrite !filter_cons. pose proof (Hl y (list_elem_of_here _ _)) as Hy.
  assert (length (filter Q l) = length (filter P l)) as IH'.
  { apply IH. intros z Hz. apply Hl. by right. }
  repeat case_decide; simpl; tauto || by rewrite IH'.
Qed.

Lemma filter_length_gain (l : list A) x :
  NoDup l → x ∈ l → ¬ P x → Q x → (∀ y, y ∈ l → y ≠ x → P y ↔ Q y) →
  length (filter Q l) = S (length (filter P l)).
Proof.
  induction l as [|y l IH]; intros Hnd Hx HP HQ Hl; [by inversion Hx|].
  apply NoDup_cons in Hnd as [Hy Hnd]. rewrite !filter_cons.
  apply elem_of_cons in Hx as [<-|Hxl].
  - rewrite decide_True, decide_False by done. simpl. f_equal.
    apply filter_length_agree. intros z Hz. apply Hl; [by right|].
    intros ->. done.
  - assert (y ≠ x) as Hyx by (intros ->; done).
    assert (length (filter Q l) = S (length (filter P l))) as IH'.
    { apply IH; try done. intros z Hz. apply Hl. by right. }
    pose proof (Hl y (list_elem_of_here _ _) Hyx) as Hpq.
    repeat case_decide; simpl; tauto || by rewrite IH'.
Qed.

Lemma filter_all (l : list A) : (∀ y, y ∈ l → P y) → filter P l = l.
Proof.
  induction l as [|y l IH]; intros Hl; [done|].
  rewrite filter_cons_True by (apply Hl; left). f_equal. apply IH.
  intros z Hz. apply Hl. by right.
Qed.

Lemma filter_none (l : list A) : (∀ y, y ∈ l → ¬ P y) → filter P l = [].
Proof.
  induction l as [|y l IH]; intros Hl; [done|].
  rewrite filter_cons_False by (apply Hl; left). apply IH.
  intros z Hz. apply Hl. by right.
Qed.

End Filter.

Lemma filter_length_three {A} (P1 P2 P3 : A → Prop)
    `{!∀ x, Decision (P1 x), !∀ x, Decision (P2 x), !∀ x, Decision (P3 x)} (l : list A) :
  (∀ y, y ∈ l → (P1 y ∧ ¬ P2 y ∧ ¬ P3 y) ∨ (¬ P1 y ∧ P2 y ∧ ¬ P3 y) ∨ (¬ P1 y ∧ ¬ P2 y ∧ P3 y)) →
  (length (filter P1 l) + length (filter P2 l) + length (filter P3 l))%nat = length l.
Proof.
  induction l as [|y l IH]; intros Hl; [done|].
  assert ((length (filter P1 l) + length (filter P2 l) + length (filter P3 l))%nat
          = length l) as IH'.
  { apply IH. intros z Hz. apply Hl. by right. }
  pose proof (Hl y (list_elem_of_here _ _)) as Hy.
  rewrite !filter_cons. repeat case_decide; simpl; tauto || lia.
Qed.

Section Counting.
Implicit Types (cells : Board.grid) (i j rows cols : Z) (p : string → bool).

Lemma elem_of_cells_where p rows cols cells i j :
  (i, j) ∈ cells_where p rows cols cells ↔
  in_bounds rows cols i j ∧ ∃ c, cell cells i j = Some c ∧ p c = true.
Proof.
  unfold cells_where. rewrite list_elem_of_filter, elem_of_coords. simpl.
  destruct (cell cells i j) as [c|]; simpl.
  - split; [intros [? ?]; eauto|]. intros (? & c' & ? & ?). by simplify_eq.
  - split; [by intros [? ?]|]. by intros (? & c' & ? & ?).
Qed.

Lemma NoDup_cells_where p rows cols cells : NoDup (cells_where p rows cols cells).
Proof. apply NoDup_filter, NoDup_coords. Qed.

(** Writing a [p]-cell over one that is not adds one to the count. *)
Lemma cells_where_update_gain p rows cols cells i j c v :
  shape_ok rows cols cells → in_bounds rows cols i j →
  cell cells i j = Some c → p c = false → p v = true →
  length (cells_where p rows cols (update cells i j v))
  = S (length (cells_where p rows cols cells)).
Proof.
  intros Hs Hb Hc Hpc Hpv. unfold cells_where.
  apply filter_length_gain with (x := (i, j)).
  - apply NoDup_coords.
  - by apply elem_of_coords.
  - simpl. rewrite Hc. simpl. congruence.
  - simpl. by rewrite (cell_update_eq _ _ _ _ _ _ Hs Hb).
  - intros [i' j'] _ Hne. simpl.
    rewrite cell_update_ne; [done| | |done]; unfold in_bounds in Hb; lia.
Qed.

(** Writing a cell that [p] rejects over another one leaves the count. *)
Lemma cells_where_update_same p rows cols cells i j c v :
  shape_ok rows cols cells → in_bounds rows cols i j →
  cell cells i j = Some c → p c = false → p v = false →
  length (cells_where p rows cols (update cells i j v))
  = length (cells_where p rows cols cells).
Proof.
  intros Hs Hb Hc Hpc Hpv. unfold cells_where.
  apply filter_length_agree. intros [i' j'] _. simpl.
  destruct (decide ((i', j') = (i, j))) as [Heq|Hne].
  - simplify_eq. rewrite (cell_update_eq _ _ _ _ _ _ Hs Hb), Hc. simpl. by rewrite Hpc, Hpv.
  - rewrite cell_update_ne; [done| | |done]; unfold in_bounds in Hb; lia.
Qed.

(** Writing a cell that [p] rejects over a [p]-cell takes one off. *)
Lemma cells_where_update_loss p rows cols cells i j c v :
  shape_ok rows cols cells → in_bounds rows cols i j →
  cell cells i j = Some c → p c = true → p v = false →
  length (cells_where p rows cols cells)
  = S (length (cells_where p rows cols (update cells i j v))).
Proof.
  intros Hs Hb Hc Hpc Hpv. unfold cells_where.
  apply filter_length_gain with (x := (i, j)).
  - apply NoDup_coords.
  - by apply elem_of_coords.
  - simpl. rewrite (cell_update_eq _ _ _ _ _ _ Hs Hb). simpl. congruence.
  - simpl. by rewrite Hc.
  - intros [i' j'] _ Hne. simpl.
    rewrite cell_update_ne; [done| | |done]; unfold in_bounds in Hb; lia.
Qed.

(** Every cell of a grid is empty, an obstacle or a mark. *)
Lemma count_three rows cols cells :
  shape_ok rows cols cells →
  Z.of_nat (length (cells_where is_empty rows cols cells)) +
  Z.of_nat (length (cells_where is_obstacle rows cols cells)) +
  Z.of_nat (length (cells_where is_mark rows cols cells)) = rows * cols.
Proof.
  intros Hs. pose proof Hs as (Hr & Hc & _).
  rewrite <-(length_coords rows cols Hr Hc). unfold cells_where.
  rewrite <-(filter_length_three
    (λ ij, from_option is_empty false (cell cells ij.1 ij.2) = true)
    (λ ij, from_option is_obstacle false (cell cells ij.1 ij.2) = true)
    (λ ij, from_option is_mark false (cell cells ij.1 ij.2) = true)
    (Board.coords rows cols)); [lia|].
  intros [i j] Hij%elem_of_coords. simpl.
  destruct (cell_in_bounds _ _ _ _ _ Hs Hij) as [c ->]. simpl.
  unfold is_mark, is_empty, is_obstacle.
  repeat case_bool_decide; simplify_eq/=; naive_solver.
Qed.

End Counting.

(** ** Obstacle placement *)

Section Placement.
Variable rng : nat → Z.
Variables rows cols n : Z.
Implicit Types (cells : Board.grid) (placed : Z) (pos fuel : nat).

Lemma place_loop_done fuel cells placed pos :
  n ≤ placed → Board.place_loop fuel rng rows cols n cells placed pos = Ok (cells, pos).
Proof.
  intros Hn. destruct fuel; simpl; by destruct (Z.ltb_spec placed n); [lia|].
Qed.

Lemma place_loop_no_fuel cells placed pos :
  placed < n → Board.place_loop 0 rng rows cols n cells placed pos = OutOfFuel.
Proof. intros Hn. simpl. by destruct (Z.ltb_spec placed n); [|lia]. Qed.

(** With an empty range for the row or the column the first draw raises. *)
Lemma place_loop_ValueError fuel cells placed pos :
  placed < n → rows ≤ 0 ∨ cols ≤ 0 →
  Board.place_loop (S fuel) rng rows cols n cells placed pos = Raise ValueError.
Proof.
  intros Hn Hdim. simpl. destruct (Z.ltb_spec placed n); [|lia].
  unfold Py.randrange. destruct (Z.leb_spec rows 0); [done|].
  rewrite bind_Ok. destruct (Z.leb_spec cols 0); [done|lia].
Qed.

(** One iteration of the loop on a grid of the right shape. *)
Lemma place_loop_step fuel cells placed pos :
  shape_ok rows cols cells → placed < n → 0 < rows → 0 < cols →
  ∃ c, in_bounds rows cols (rng pos `mod` rows) (rng (S pos) `mod` cols) ∧
    cell cells (rng pos `mod` rows) (rng (S pos) `mod` cols) = Some c ∧
    Board.place_loop (S fuel) rng rows cols n cells placed pos =
      if decide (c = ".") then
        Board.place_loop fuel rng rows cols n
          (update cells (rng pos `mod` rows) (rng (S pos) `mod` cols) "#")
          (placed + 1) (S (S pos))
      else Board.place_loop fuel rng rows cols n cells placed (S (S pos)).
Proof.
  intros Hs Hn Hr Hc.
  assert (in_bounds rows cols (rng pos `mod` rows) (rng (S pos) `mod` cols)) as Hb.
  { unfold in_bounds. split; apply Z.mod_pos_bound; lia. }
  destruct (get_in_bounds _ _ _ _ _ Hs Hb) as (c & Hcell & Hget).
  exists c. split; [done|]. split; [done|].
  simpl. destruct (Z.ltb_spec placed n); [|lia].
  unfold Py.randrange.
  destruct (Z.leb_spec rows 0); [lia|]. rewrite bind_Ok.
  destruct (Z.leb_spec cols 0); [lia|]. rewrite bind_Ok, Hget, bind_Ok.
  case_decide; [|done]. by rewrite (set_update _ _ _ _ _ _ Hs Hb), bind_Ok.
Qed.

Lemma placing_step cells placed i j :
  placing rows cols cells placed → in_bounds rows cols i j →
  cell cells i j = Some "." → placing rows cols (update cells i j "#") (placed + 1).
Proof.
  intros (Hs & Hall & Hcount) Hb Hc. split; [by apply shape_update|]. split.
  - intros i' j' c Hc'. destruct (decide ((i', j') = (i, j))) as [Heq|Hne].
    + simplify_eq. rewrite (cell_update_eq _ _ _ _ _ _ Hs Hb) in Hc'. right. congruence.
    + rewrite cell_update_ne in Hc'; [by eapply Hall| | |done]; unfold in_bounds in Hb; lia.
  - rewrite (cells_where_update_gain _ _ _ _ _ _ "." "#" Hs Hb Hc); [lia|done|done].
Qed.

Lemma placing_bound cells placed : placing rows cols cells placed → 0 ≤ placed ≤ rows * cols.
Proof.
  intros ((Hr & Hc & Hs) & _ & ->). split; [lia|].
  rewrite <-(length_coords rows cols Hr Hc). unfold cells_where.
  pose proof (length_filter
    (λ ij, from_option is_obstacle false (cell cells ij.1 ij.2) = true)
    (Board.coords rows cols)). lia.
Qed.

(** When the loop returns, exactly [n] cells are obstacles. *)
Lemma place_loop_Ok fuel cells placed pos cells' pos' :
  placing rows cols cells placed → placed ≤ n →
  Board.place_loop fuel rng rows cols n cells placed pos = Ok (cells', pos') →
  placing rows cols cells' n.
Proof.
  revert cells placed pos. induction fuel as [|fuel IH]; intros cells placed pos Hp Hle.
  - destruct (decide (placed < n)).
    + by rewrite place_loop_no_fuel.
    + rewrite place_loop_done by lia. intros [= <- <-].
      by replace n with placed by lia.
  - destruct (decide (placed < n)) as [Hlt|Hge].
    + destruct (decide (rows ≤ 0 ∨ cols ≤ 0)) as [Hdim|Hdim].
      { by rewrite place_loop_ValueError. }
      destruct (place_loop_step fuel cells placed pos) as (c & Hb & Hc & ->);
        [apply Hp|lia..|].
      case_decide as Hdot; [subst c|].
      * apply IH; [by apply placing_step|lia].
      * by apply IH.
    + rewrite place_loop_done by lia. intros [= <- <-].
      by replace n with placed by lia.
Qed.

(** More obstacles than cells: the loop never returns. *)
Lemma place_loop_diverges fuel cells placed pos :
  placing rows cols cells placed → 0 < rows → 0 < cols → rows * cols < n →
  Board.place_loop fuel rng rows cols n cells placed pos = OutOfFuel.
Proof.
  intros Hp Hr Hc Hn. revert cells placed pos Hp.
  induction fuel as [|fuel IH]; intros cells placed pos Hp;
    pose proof (placing_bound _ _ Hp) as Hbound.
  - apply place_loop_no_fuel. lia.
  - destruct (place_loop_step fuel cells placed pos) as (c & Hb & Hcell & ->);
      [apply Hp|lia..|].
    case_decide as Hdot; [subst c|].
    + apply IH. by apply placing_step.
    + by apply IH.
Qed.

(** The loop returns once every cell that is not yet an obstacle has been
    drawn within the budget. *)
Lemma place_loop_covered fuel cells placed pos :
  placing rows cols cells placed → n ≤ rows * cols →
  (∀ i j, in_bounds rows cols i j →
     cell cells i j = Some "#" ∨
     ∃ k, (k < fuel)%nat ∧ rng (pos + 2 * k)%nat `mod` rows = i ∧
          rng (pos + 2 * k + 1)%nat `mod` cols = j) →
  ∃ cells' pos', Board.place_loop fuel rng rows cols n cells placed pos = Ok (cells', pos').
Proof.
  intros Hp Hn. revert cells placed pos Hp.
  induction fuel as [|fuel IH]; intros cells placed pos Hp Hcov.
  - destruct (decide (placed < n)) as [Hlt|Hge];
      [|rewrite place_loop_done by lia; by eauto].
    exfalso. destruct Hp as ((Hr & Hc & Hs) & _ & Hcount).
    rewrite <-(length_coords rows cols Hr Hc) in Hn.
    unfold cells_where in Hcount. rewrite filter_all in Hcount; [lia|].
    intros [i j] Hij%elem_of_coords. simpl.
    destruct (Hcov i j Hij) as [->|(k & ? & _)]; [done|lia].
  - destruct (decide (placed < n)) as [Hlt|Hge];
      [|rewrite place_loop_done by lia; by eauto].
    pose proof (placing_bound _ _ Hp) as Hbound.
    assert (0 < rows ∧ 0 < cols) as [Hr Hc].
    { destruct Hp as ((? & ? & _) & _). nia. }
    destruct (place_loop_step fuel cells placed pos) as (c & Hb & Hcell & ->);
      [apply Hp|lia..|].
    assert (∀ k, (0 < k < S fuel)%nat →
              ∃ k', (k' < fuel)%nat ∧ (pos + 2 * k = S (S pos) + 2 * k')%nat) as Hshift.
    { intros k Hk. exists (k - 1)%nat. lia. }
    case_decide as Hdot; [subst c|].
    + apply IH; [by apply placing_step|]. intros i j Hij.
      destruct (decide ((i, j) = (rng pos `mod` rows, rng (S pos) `mod` cols))) as [Heq|Hne].
      { left. simplify_eq. apply (cell_update_eq rows cols); [apply Hp|done]. }
      destruct (Hcov i j Hij) as [Hobs|(k & Hk & Hi & Hj)].
      { left. rewrite cell_update_ne; [done| | |done]; unfold in_bounds in Hb; lia. }
      right. destruct (decide (k = 0%nat)) as [->|Hk0].
      { exfalso. apply Hne. rewrite <-Hi, <-Hj. f_equal; f_equal; f_equal; lia. }
      destruct (Hshift k) as (k' & Hk' & Heq); [lia|].
      exists k'. split; [done|]. rewrite <-Heq. by split.
    + apply IH; [done|]. intros i j Hij.
      destruct (decide ((i, j) = (rng pos `mod` rows, rng (S pos) `mod` cols))) as [Heq|Hne].
      { left. simplify_eq. destruct Hp as (_ & Hall & _).
        destruct (Hall _ _ _ Hcell) as [->| ->]; done. }
      destruct (Hcov i j Hij) as [Hobs|(k & Hk & Hi & Hj)]; [by left|].
      right. destruct (decide (k = 0%nat)) as [->|Hk0].
      { exfalso. apply Hne. rewrite <-Hi, <-Hj. f_equal; f_equal; f_equal; lia. }
      destruct (Hshift k) as (k' & Hk' & Heq); [lia|].
      exists k'. split; [done|]. rewrite <-Heq. by split.
Qed.

End Placement.

(** ** Initialisation and reset *)

Section Init.
Variable rng : nat → Z.
Implicit Types (cells : Board.grid) (rows cols n : Z) (pos fuel : nat).

Lemma empty_grid_cell rows cols i j :
  in_bounds rows cols i j → cell (Board.empty_grid rows cols) i j = Some ".".
Proof.
  intros [Hi Hj]. apply cell_Some. split; [lia|]. split; [lia|].
  exists ((λ _, ".") <$> Py.range cols). unfold Board.empty_grid, Py.range. split.
  - rewrite list_lookup_fmap, lookup_seqZ_lt by lia. done.
  - rewrite list_lookup_fmap, lookup_seqZ_lt by lia. done.
Qed.

Lemma empty_grid_shape rows cols :
  0 ≤ rows → 0 ≤ cols → shape_ok rows cols (Board.empty_grid rows cols).
Proof.
  intros Hr Hc. unfold Board.empty_grid, Py.range. repeat split; try done.
  - by rewrite length_fmap, length_seqZ.
  - apply Forall_fmap, Forall_forall. intros i _. simpl.
    by rewrite length_fmap, length_seqZ.
Qed.

Lemma placing_empty rows cols :
  0 ≤ rows → 0 ≤ cols → placing rows cols (Board.empty_grid rows cols) 0.
Proof.
  intros Hr Hc. split; [by apply empty_grid_shape|]. split.
  - intros i j c Hcell. left.
    pose proof (cell_bounds _ _ _ _ _ _ (empty_grid_shape rows cols Hr Hc) Hcell) as Hb.
    rewrite (empty_grid_cell _ _ _ _ Hb) in Hcell. congruence.
  - unfold cells_where. rewrite filter_none; [done|].
    intros [i j] Hij%elem_of_coords. simpl. by rewrite empty_grid_cell.
Qed.

(** The comprehension returns the empty cells among the coordinates. *)
Lemma open_cells_filter cells (cs : list (Z * Z)) :
  (∀ i j, (i, j) ∈ cs → is_Some (cell cells i j)) →
  Board.open_cells cells cs =
    Ok (filter (λ ij, from_option is_empty false (cell cells ij.1 ij.2) = true) cs).
Proof.
  induction cs as [|[i j] cs IH]; intros Hcs; [done|].
  destruct (Hcs i j) as [c Hc]; [left|]. simpl.
  rewrite (get_cell _ _ _ _ Hc), bind_Ok, IH, bind_Ok by (intros; apply Hcs; by right).
  rewrite filter_cons. simpl. rewrite Hc. simpl. unfold is_empty.
  f_equal. case_decide; [by rewrite decide_True by (by rewrite bool_decide_eq_true)|].
  by rewrite decide_False by (by rewrite bool_decide_eq_true).
Qed.

Lemma open_cells_grid rows cols cells :
  (∀ i j, in_bounds rows cols i j → is_Some (cell cells i j)) →
  Board.open_cells cells (Board.coords rows cols) =
    Ok (cells_where is_empty rows cols cells).
Proof.
  intros Hs. apply open_cells_filter. intros i j Hij%elem_of_coords. by apply Hs.
Qed.

Lemma place_loop_shape fuel rows cols n cells placed pos cells' pos' :
  placing rows cols cells placed →
  Board.place_loop fuel rng rows cols n cells placed pos = Ok (cells', pos') →
  shape_ok rows cols cells'.
Proof.
  intros Hp. destruct (decide (placed ≤ n)) as [Hle|Hgt].
  - intros Hloop. by apply (place_loop_Ok _ _ _ _ _ _ _ _ _ _ Hp Hle Hloop).
  - rewrite place_loop_done by lia. intros [= <- <-]. apply Hp.
Qed.

(** What [_init_board] returns, in terms of what the placement loop does. *)
Lemma init_board_unfold fuel rows cols win_len n pos :
  0 ≤ rows → 0 ≤ cols →
  Board._init_board fuel rng rows cols win_len n pos =
    '(cells, pos') ← Board.place_loop fuel rng rows cols n (Board.empty_grid rows cols) 0 pos;
    Ok (Board.mk rows cols win_len n cells
          (list_to_set (cells_where is_empty rows cols cells)), pos').
Proof.
  intros Hr Hc. unfold Board._init_board, Board._place_obstacles.
  destruct (Board.place_loop _ _ _ _ _ _ _ _) as [[cells pos']| |] eqn:Hloop; try done.
  rewrite !bind_Ok.
  apply place_loop_shape in Hloop; [|by apply placing_empty].
  rewrite (open_cells_grid rows cols); [done|].
  intros i j Hij. by eapply cell_in_bounds.
Qed.

Lemma init_board_inv fuel rows cols win_len n pos b pos' :
  0 ≤ rows → 0 ≤ cols →
  Board._init_board fuel rng rows cols win_len n pos = Ok (b, pos') → Board_inv b.
Proof.
  intros Hr Hc. rewrite init_board_unfold by done.
  destruct (Board.place_loop _ _ _ _ _ _ _ _) as [[cells pos'']| |] eqn:Hloop; try done.
  rewrite bind_Ok. intros [= <- <-].
  apply place_loop_shape in Hloop; [|by apply placing_empty]. by split.
Qed.

(** After a construction that returns, the invariant holds, exactly [n]
    cells are obstacles and no cell is marked. *)
Lemma init_board_Ok fuel rows cols win_len n pos b pos' :
  0 ≤ rows → 0 ≤ cols → 0 ≤ n →
  Board._init_board fuel rng rows cols win_len n pos = Ok (b, pos') →
  Board._rows b = rows ∧ Board._cols b = cols ∧
  Board._win_len b = win_len ∧ Board._num_obstacles b = n ∧
  placing rows cols (Board._cells b) n ∧ Board_inv b.
Proof.
  intros Hr Hc Hn. rewrite init_board_unfold by done.
  destruct (Board.place_loop _ _ _ _ _ _ _ _) as [[cells pos'']| |] eqn:Hloop; try done.
  rewrite bind_Ok. intros [= <- <-]. simpl.
  apply place_loop_Ok in Hloop; [|by apply placing_empty|done].
  repeat split; try done; apply Hloop.
Qed.

Lemma covers_draw rows cols pos fuel i j :
  covers rng rows cols pos fuel → in_bounds rows cols i j →
  ∃ k, (k < fuel)%nat ∧ rng (pos + 2 * k)%nat `mod` rows = i ∧
       rng (pos + 2 * k + 1)%nat `mod` cols = j.
Proof.
  unfold covers. rewrite Forall_forall. intros Hcov Hij%elem_of_coords.
  apply Hcov in Hij. apply Exists_exists in Hij as (k & Hk%elem_of_seq & Hd).
  exists k. split; [lia|done].
Qed.

(** The construction returns when the draws cover the grid. *)
Lemma init_board_total fuel rows cols win_len n pos :
  0 ≤ rows → 0 ≤ cols → 0 ≤ n ≤ rows * cols → covers rng rows cols pos fuel →
  ∃ b pos', Board._init_board fuel rng rows cols win_len n pos = Ok (b, pos').
Proof.
  intros Hr Hc Hn Hcov. rewrite init_board_unfold by lia.
  destruct (place_loop_covered rng rows cols n fuel (Board.empty_grid rows cols) 0 pos)
    as (cells & pos' & ->); [by apply placing_empty|lia| |].
  - intros i j Hij. right. by apply covers_draw.
  - rewrite bind_Ok. by eauto.
Qed.

End Init.

(** ** Board operations *)

Section BoardOps.
Implicit Types (b : Board.t) (i j : Z) (sym : string).

Lemma well_formed_in_bounds b i j :
  well_formed b → (i, j) ∈ Board._legal b → in_bounds (Board._rows b) (Board._cols b) i j.
Proof.
  intros [_ Hsub] Hij. apply elem_of_coords.
  apply Hsub in Hij. by apply elem_of_list_to_set in Hij.
Qed.

Lemma Board_inv_legal b i j :
  Board_inv b →
  (i, j) ∈ Board._legal b ↔
  in_bounds (Board._rows b) (Board._cols b) i j ∧ cell (Board._cells b) i j = Some ".".
Proof.
  intros [_ ->]. rewrite elem_of_list_to_set, elem_of_cells_where. unfold is_empty. split.
  - intros (? & c & ? & ->%bool_decide_eq_true). done.
  - intros [? ?]. split; [done|]. exists ".". done.
Qed.

Lemma Board_inv_well_formed b : Board_inv b → well_formed b.
Proof.
  intros Hinv. split; [apply Hinv|]. intros [i j] Hij.
  apply elem_of_list_to_set, elem_of_coords. by apply (Board_inv_legal b i j Hinv).
Qed.

Lemma place_mark_illegal b i j sym :
  (i, j) ∉ Board._legal b → Board.place_mark b i j sym = Ok (false, b).
Proof. intros Hij. unfold Board.place_mark. by rewrite decide_False. Qed.

Lemma place_mark_legal b i j sym :
  well_formed b → (i, j) ∈ Board._legal b →
  Board.place_mark b i j sym =
    Ok (true, Board.mk (Board._rows b) (Board._cols b) (Board._win_len b)
                (Board._num_obstacles b) (update (Board._cells b) i j sym)
                (Board._legal b ∖ {[(i, j)]})).
Proof.
  intros Hwf Hij. pose proof (well_formed_in_bounds _ _ _ Hwf Hij) as Hb.
  unfold Board.place_mark. rewrite decide_True by done.
  by rewrite (set_update _ _ _ _ _ _ (proj1 Hwf) Hb), bind_Ok.
Qed.

(** [place_mark] returns on every well-formed board. *)
Lemma place_mark_total b i j sym :
  well_formed b → ∃ moved b', Board.place_mark b i j sym = Ok (moved, b').
Proof.
  intros Hwf. destruct (decide ((i, j) ∈ Board._legal b)).
  - rewrite place_mark_legal by done. by eauto.
  - rewrite place_mark_illegal by done. by eauto.
Qed.

Lemma place_mark_well_formed b i j sym moved b' :
  well_formed b → Board.place_mark b i j sym = Ok (moved, b') → well_formed b'.
Proof.
  intros Hwf. destruct (decide ((i, j) ∈ Board._legal b)).
  - rewrite place_mark_legal by done. intros [= <- <-]. split; simpl.
    + apply shape_update, Hwf.
    + destruct Hwf as [_ Hsub]. intros x [Hx _]%elem_of_difference. by apply Hsub.
  - rewrite place_mark_illegal by done. by intros [= <- <-].
Qed.

Lemma place_mark_inv b i j sym moved b' :
  Board_inv b → is_mark sym = true →
  Board.place_mark b i j sym = Ok (moved, b') → Board_inv b'.
Proof.
  intros Hinv Hsym. pose proof (Board_inv_well_formed _ Hinv) as Hwf.
  destruct (decide ((i, j) ∈ Board._legal b)) as [Hij|Hij].
  - rewrite place_mark_legal by done. intros [= <- <-].
    pose proof (well_formed_in_bounds _ _ _ Hwf Hij) as Hb.
    split; simpl; [apply shape_update, Hinv|].
    apply set_eq. intros [i' j'].
    rewrite elem_of_difference, elem_of_singleton, (Board_inv_legal _ _ _ Hinv).
    rewrite elem_of_list_to_set, elem_of_cells_where.
    destruct (decide ((i', j') = (i, j))) as [Heq|Hne].
    + simplify_eq. rewrite (cell_update_eq _ _ _ _ _ _ (proj1 Hinv) Hb).
      split; [by intros [_ []]|]. intros (_ & c & [= <-] & Hc).
      unfold is_mark in Hsym. rewrite Hc in Hsym. done.
    + rewrite cell_update_ne; [| | |done]; [|unfold in_bounds in Hb; lia..].
      unfold is_empty. split.
      * intros [[? ?] _]. split; [done|]. by exists ".".
      * intros (? & c & ? & ->%bool_decide_eq_true). done.
  - rewrite place_mark_illegal by done. by intros [= <- <-].
Qed.

(** Under the invariant every coordinate of the grid is in exactly one of
    the three classes. *)
Lemma Board_inv_classes b i j :
  Board_inv b → in_bounds (Board._rows b) (Board._cols b) i j →
  (is_open b i j ∧ ¬ is_marked b i j ∧ ¬ is_blocked b i j) ∨
  (¬ is_open b i j ∧ is_marked b i j ∧ ¬ is_blocked b i j) ∨
  (¬ is_open b i j ∧ ¬ is_marked b i j ∧ is_blocked b i j).
Proof.
  intros Hinv Hb. pose proof (Board_inv_legal b i j Hinv) as Hlegal.
  destruct (cell_in_bounds _ _ _ _ _ (proj1 Hinv) Hb) as [c Hc].
  unfold is_open, is_marked, is_blocked. rewrite Hc in *.
  destruct (decide (c = ".")) as [->|Hdot]; [|destruct (decide (c = "#")) as [->|Hobs]].
  - left. split; [tauto|]. split; [|intros [_ [=]]].
    intros (_ & c & [= <-] & Hm). done.
  - right. right. split; [intros [_ [=]]|]. split.
    + intros (_ & c & [= <-] & Hm). done.
    + split; [|done]. rewrite Hlegal. intros [_ [=]].
  - right. left. split; [intros [_ [=]]; done|]. split; [|intros [_ [=]]; done].
    split; [rewrite Hlegal; intros [_ [=]]; done|]. exists c. split; [done|].
    unfold is_mark, is_empty, is_obstacle.
    by rewrite !bool_decide_eq_false_2.
Qed.

(** Under the invariant the open set has one element for each cell that
    is neither an obstacle nor a mark. *)
Lemma Board_inv_size b :
  Board_inv b →
  Z.of_nat (size (Board._legal b)) =
    Board._rows b * Board._cols b - (count_cells is_obstacle b + count_cells is_mark b).
Proof.
  intros [Hs Hlegal]. rewrite Hlegal, size_list_to_set by apply NoDup_cells_where.
  pose proof (count_three _ _ _ Hs). unfold count_cells. lia.
Qed.

End BoardOps.

(** * Properties of the program *)

(** ** Legal moves *)

(** C8: on every well-formed board and for every pair of integers,
    [is_legal_move] is true exactly when the pair lies inside the grid and
    is in the open set; outside the grid, negative indices included, it
    returns false.  Being a membership test it cannot raise. *)
Theorem is_legal_move_spec (b : Board.t) (i j : Z) :
  well_formed b →
  (Board.is_legal_move b i j = true ↔
     in_bounds (Board._rows b) (Board._cols b) i j ∧ (i, j) ∈ Board._legal b) ∧
  (¬ in_bounds (Board._rows b) (Board._cols b) i j → Board.is_legal_move b i j = false).
Proof.
  intros Hwf. unfold Board.is_legal_move. split.
  - rewrite bool_decide_eq_true. split; [|tauto].
    intros Hij. split; [by apply well_formed_in_bounds|done].
  - intros Hout. apply bool_decide_eq_false. intros Hij.
    by apply Hout, well_formed_in_bounds.
Qed.

Lemma sample_board_inv : Board_inv sample_board.
Proof. split; [repeat split; try done; repeat constructor|by vm_compute]. Defined.

Lemma is_legal_move_spec_witness :
  well_formed sample_board ∧
  Board.is_legal_move sample_board (-1) 2 = false ∧
  Board.is_legal_move sample_board 0 1 = true.
Proof.
  pose proof (Board_inv_well_formed _ sample_board_inv) as Hwf.
  destruct (is_legal_move_spec sample_board (-1) 2 Hwf) as [_ Hout].
  split; [done|]. split; [apply Hout; unfold in_bounds; simpl; lia|by vm_compute].
Defined.

(** ** Placing a mark *)

(** C3: on every well-formed board, [place_mark] at an open coordinate
    writes the symbol into that cell, removes the coordinate from the open
    set, leaves every other cell and the configuration alone and returns
    [True]; at any other coordinate it returns [False] and the board it was
    given.  The other operations on an existing board ([is_legal_move],
    [is_full], [check_winner]) return a value and no board. *)
Theorem place_mark_spec (b : Board.t) (i j : Z) (sym : string) :
  well_formed b →
  ((i, j) ∈ Board._legal b →
     ∃ b', Board.place_mark b i j sym = Ok (true, b') ∧
       cell (Board._cells b') i j = Some sym ∧
       Board._legal b' = Board._legal b ∖ {[(i, j)]} ∧
       ((i, j) ∉ Board._legal b') ∧
       (∀ i' j', (i', j') ≠ (i, j) →
          cell (Board._cells b') i' j' = cell (Board._cells b) i' j') ∧
       Board._rows b' = Board._rows b ∧ Board._cols b' = Board._cols b ∧
       Board._win_len b' = Board._win_len b ∧
       Board._num_obstacles b' = Board._num_obstacles b ∧
       well_formed b') ∧
  ((i, j) ∉ Board._legal b → Board.place_mark b i j sym = Ok (false, b)).
Proof.
  intros Hwf. split; [|apply place_mark_illegal].
  intros Hij. pose proof (well_formed_in_bounds _ _ _ Hwf Hij) as Hb.
  eexists. split; [by apply place_mark_legal|]. simpl.
  split; [by apply (cell_update_eq _ _ _ _ _ _ (proj1 Hwf) Hb)|].
  split; [done|]. split.
  { rewrite elem_of_difference, elem_of_singleton. tauto. }
  split.
  { intros i' j' Hne. apply cell_update_ne; [| |done]; unfold in_bounds in Hb; lia. }
  do 4 (split; [done|]). split; simpl.
  - apply shape_update, Hwf.
  - destruct Hwf as [_ Hsub]. intros x [Hx _]%elem_of_difference. by apply Hsub.
Qed.

Lemma place_mark_spec_witness :
  well_formed sample_board ∧
  Board.place_mark sample_board 1 1 "O" = Ok (false, sample_board) ∧
  ∃ b', Board.place_mark sample_board 0 1 "O" = Ok (true, b') ∧
        cell (Board._cells b') 0 1 = Some "O" ∧ (0, 1) ∉ Board._legal b'.
Proof.
  pose proof (Board_inv_well_formed _ sample_board_inv) as Hwf.
  split; [done|]. split.
  - apply (place_mark_spec sample_board 1 1 "O" Hwf). by vm_compute.
  - destruct (place_mark_spec sample_board 0 1 "O" Hwf) as [Hlegal _].
    destruct Hlegal as (b' & Hplace & Hcell & _ & Hgone & _); [by vm_compute|].
    by exists b'.
Defined.

(** ** The board invariant *)

(** C4: every board the operations produce (constructed, reset, or marked
    with a player's symbol) satisfies the invariant; each coordinate of the
    grid is then in exactly one of the classes open and empty, marked,
    obstacle, and the size of the open set is [rows * cols] minus the
    number of obstacles and of marks. *)
Theorem board_invariant (b : Board.t) :
  reachable b →
  Board_inv b ∧
  (∀ i j, in_bounds (Board._rows b) (Board._cols b) i j →
     (is_open b i j ∧ ¬ is_marked b i j ∧ ¬ is_blocked b i j) ∨
     (¬ is_open b i j ∧ is_marked b i j ∧ ¬ is_blocked b i j) ∨
     (¬ is_open b i j ∧ ¬ is_marked b i j ∧ is_blocked b i j)) ∧
  Z.of_nat (size (Board._legal b)) =
    Board._rows b * Board._cols b - (count_cells is_obstacle b + count_cells is_mark b).
Proof.
  intros Hreach. assert (Board_inv b) as Hinv.
  { induction Hreach as [fuel rng rows cols win_len n pos b pos' Hr Hc Hinit
                        |fuel rng b pos b' pos' _ IH Hreset
                        |b i j sym moved b' _ IH Hsym Hplace].
    - by apply (init_board_inv rng fuel rows cols win_len n pos b pos').
    - apply (init_board_inv rng _ _ _ _ _ _ _ _ (proj1 (proj1 IH))
               (proj1 (proj2 (proj1 IH))) Hreset).
    - by apply (place_mark_inv b i j sym moved b'). }
  split; [done|]. split; [|by apply Board_inv_size].
  intros i j Hij. by apply Board_inv_classes.
Qed.

Lemma board_invariant_witness :
  ∃ b pos, Board.__init__ 9 (sweep 3) 3 3 3 2 0 = Ok (b, pos) ∧
    ∃ b', Board.place_mark b 2 2 "X" = Ok (true, b') ∧ reachable b' ∧
          Board_inv b' ∧ Z.of_nat (size (Board._legal b')) = 3 * 3 - (2 + 1).
Proof.
  eexists _, _. split; [by vm_compute|].
  eexists. split; [by vm_compute|].
  match goal with |- reachable ?b ∧ _ => assert (reachable b) as Hreach end.
  { eapply reach_place_mark with (sym := "X") (i := 2) (j := 2);
      [eapply (reach_init 9 (sweep 3) 3 3 3 2 0); [lia|lia|by vm_compute]
      |done|by vm_compute]. }
  split; [done|]. destruct (board_invariant _ Hreach) as (Hinv & _ & Hsize).
  split; [done|]. rewrite Hsize. by vm_compute.
Defined.

(** ** Initialisation *)

Lemma init_board_fresh (rng : nat → Z) fuel rows cols win_len n pos b pos' :
  0 ≤ rows → 0 ≤ cols → 0 ≤ n →
  Board._init_board fuel rng rows cols win_len n pos = Ok (b, pos') →
  fresh_board rows cols win_len n b.
Proof.
  intros Hr Hc Hn Hinit.
  destruct (init_board_Ok rng _ _ _ _ _ _ _ _ Hr Hc Hn Hinit)
    as (Hrows & Hcols & Hwin & Hnum & (Hs & Hall & Hcount) & Hinv).
  assert (count_cells is_obstacle b = n) as Hobs.
  { unfold count_cells. rewrite Hrows, Hcols. lia. }
  assert (count_cells is_mark b = 0) as Hmark.
  { unfold count_cells, cells_where. rewrite filter_none; [done|].
    intros [i j] _. simpl. destruct (cell (Board._cells b) i j) as [c|] eqn:Hcell; [|done].
    simpl. destruct (Hall _ _ _ Hcell) as [-> | ->]; done. }
  pose proof (count_three _ _ _ (proj1 Hinv)) as Hthree.
  pose proof (Board_inv_size _ Hinv) as Hsize.
  unfold fresh_board. do 7 (split; [done|]).
  unfold count_cells in *. rewrite Hrows, Hcols in *. lia.
Qed.

(** C5: for every valid configuration, construction returns once the draws
    have covered the grid, and whenever it returns exactly [n] cells are
    obstacles, no cell is marked, the other [rows * cols - n] cells are
    empty and the open set has [rows * cols - n] elements; the same holds
    for every reset of a board with that configuration. *)
Theorem init_places_obstacles (fuel : nat) (rng : nat → Z) (rows cols win_len n : Z)
    (pos : nat) :
  0 ≤ rows → 0 ≤ cols → 0 ≤ n < rows * cols → 1 ≤ win_len →
  (covers rng rows cols pos fuel →
     ∃ b pos', Board.__init__ fuel rng rows cols win_len n pos = Ok (b, pos')) ∧
  (∀ b pos', Board.__init__ fuel rng rows cols win_len n pos = Ok (b, pos') →
     fresh_board rows cols win_len n b) ∧
  (∀ b, Board._rows b = rows → Board._cols b = cols →
        Board._win_len b = win_len → Board._num_obstacles b = n →
     (covers rng rows cols pos fuel →
        ∃ b' pos', Board.reset fuel rng b pos = Ok (b', pos')) ∧
     (∀ b' pos', Board.reset fuel rng b pos = Ok (b', pos') →
        fresh_board rows cols win_len n b')).
Proof.
  intros Hr Hc Hn Hwin. split; [|split].
  - intros Hcov. apply init_board_total; [done|done|lia|done].
  - intros b pos'. apply init_board_fresh; lia.
  - intros b <- <- <- <-. unfold Board.reset. split.
    + intros Hcov. apply init_board_total; [done|done|lia|done].
    + intros b' pos'. apply init_board_fresh; lia.
Qed.

Lemma init_places_obstacles_witness :
  covers (sweep 3) 3 3 0 9 ∧
  ∃ b pos', Board.__init__ 9 (sweep 3) 3 3 3 2 0 = Ok (b, pos') ∧ fresh_board 3 3 3 2 b.
Proof.
  assert (covers (sweep 3) 3 3 0 9) as Hcov.
  { apply (bool_decide_unpack _). by vm_compute. }
  split; [done|].
  destruct (init_places_obstacles 9 (sweep 3) 3 3 3 2 0) as (Htotal & Hfresh & _); [lia..|].
  destruct (Htotal Hcov) as (b & pos' & Hinit). exists b, pos'. split; [done|].
  by apply (Hfresh b pos').
Defined.

(** ** Win detection *)

(** On a grid of the declared shape and for a win length of at least two,
    [check_winner] returns, and returns [True] exactly when the symbol has a
    vertical, horizontal or diagonal run of at least [win_len] cells. *)
Theorem check_winner_iff_run (b : Board.t) (sym : string) :
  shape_ok (Board._rows b) (Board._cols b) (Board._cells b) → 2 ≤ Board._win_len b →
  ∃ v, Board.check_winner b sym = Ok v ∧ (v = true ↔ has_run b sym (Board._win_len b)).
Proof.
  intros Hs Hwin. destruct (check_winner_spec b sym Hs) as (v & Hv & Hrun).
  exists v. split; [done|]. by rewrite Z.max_r in Hrun by lia.
Qed.

Lemma check_winner_iff_run_witness :
  ∃ v, Board.check_winner sample_board "X" = Ok v ∧ (v = true ↔ has_run sample_board "X" 3).
Proof.
  apply (check_winner_iff_run sample_board "X"); [apply sample_board_inv|simpl; lia].
Defined.

(** C1 at win length 1: on the 1×1 board that construction and one move of
    [X] produce, the mark is a run of one cell, and [check_winner] returns
    [False]. *)
Theorem check_winner_single_mark :
  Board.__init__ 0 (sweep 1) 1 1 1 0 0 = Ok (unit_board, 0%nat) ∧
  Board.place_mark unit_board 0 0 "X" = Ok (true, unit_board_X) ∧
  has_run unit_board_X "X" (Board._win_len unit_board_X) ∧
  Board.check_winner unit_board_X "X" = Ok false.
Proof.
  split; [by vm_compute|]. split; [by vm_compute|]. split; [|by vm_compute].
  exists 0, 0, Horizontal, 1. split; [lia|]. split; [simpl; lia|].
  intros k Hk. assert (k = 0) as -> by lia. split; [unfold in_bounds; simpl; lia|done].
Qed.

(** ** Construction with any parameters *)

Section NoValidation.
Variable rng : nat → Z.
Implicit Types (rows cols win_len n : Z) (pos fuel : nat).

(** Without obstacles to place, construction returns for any dimensions. *)
Lemma init_no_obstacles fuel rows cols win_len n pos :
  n ≤ 0 → ∃ b, Board.__init__ fuel rng rows cols win_len n pos = Ok (b, pos).
Proof.
  intros Hn. unfold Board.__init__, Board._init_board, Board._place_obstacles.
  rewrite place_loop_done, bind_Ok by lia.
  rewrite (open_cells_grid rows cols), bind_Ok; [by eexists|].
  intros i j Hij. rewrite empty_grid_cell; by eauto.
Qed.

Lemma init_ValueError fuel rows cols win_len n pos :
  0 < n → rows ≤ 0 ∨ cols ≤ 0 →
  Board.__init__ (S fuel) rng rows cols win_len n pos = Raise ValueError.
Proof.
  intros Hn Hdim. unfold Board.__init__, Board._init_board, Board._place_obstacles.
  by rewrite place_loop_ValueError.
Qed.

Lemma init_diverges fuel rows cols win_len n pos :
  0 < rows → 0 < cols → rows * cols < n →
  Board.__init__ fuel rng rows cols win_len n pos = OutOfFuel.
Proof.
  intros Hr Hc Hn. unfold Board.__init__, Board._init_board, Board._place_obstacles.
  rewrite place_loop_diverges; [done|apply placing_empty; lia|done..].
Qed.

Lemma init_all_obstacles fuel rows cols win_len pos :
  0 < rows → 0 < cols → covers rng rows cols pos fuel →
  ∃ b pos', Board.__init__ fuel rng rows cols win_len (rows * cols) pos = Ok (b, pos') ∧
            Board._legal b = ∅ ∧ count_cells is_obstacle b = rows * cols.
Proof.
  intros Hr Hc Hcov.
  destruct (init_board_total rng fuel rows cols win_len (rows * cols) pos)
    as (b & pos' & Hinit); [lia|lia|nia|done|].
  exists b, pos'. split; [done|].
  destruct (init_board_fresh rng _ _ _ _ _ _ _ _ (Z.lt_le_incl _ _ Hr)
              (Z.lt_le_incl _ _ Hc) (Z.mul_nonneg_nonneg _ _ (Z.lt_le_incl _ _ Hr)
              (Z.lt_le_incl _ _ Hc)) Hinit)
    as (_ & _ & _ & _ & _ & Hobs & _ & _ & Hsize).
  split; [|done]. apply leibniz_equiv, size_empty_inv. lia.
Qed.

(** The win length is stored and never looked at. *)
Lemma init_any_win_len fuel rows cols win_len w n pos b pos' :
  Board.__init__ fuel rng rows cols win_len n pos = Ok (b, pos') →
  Board.__init__ fuel rng rows cols w n pos =
    Ok (Board.mk rows cols w n (Board._cells b) (Board._legal b), pos').
Proof.
  unfold Board.__init__, Board._init_board.
  destruct (Board._place_obstacles _ _ _ _ _ _ _) as [[cells pos'']| |]; try done.
  rewrite !bind_Ok.
  destruct (Board.open_cells _ _) as [legal| |]; try done.
  rewrite !bind_Ok. by intros [= <- <-].
Qed.

End NoValidation.

(** C2, as the code has it: construction validates nothing and has no
    configuration error.  The win length is never examined; without
    obstacles to place a board is produced for any dimensions; with
    positive dimensions and as many obstacles as cells a board without open
    cells is produced once the draws have covered the grid.  No board is
    produced when obstacles are requested and a dimension is not positive
    (the draw raises [ValueError]) or when more obstacles than cells are
    requested (the placement loop does not end). *)
Theorem init_without_validation (fuel : nat) (rng : nat → Z) (rows cols win_len n : Z)
    (pos : nat) :
  (∀ w b pos', Board.__init__ fuel rng rows cols win_len n pos = Ok (b, pos') →
     Board.__init__ fuel rng rows cols w n pos =
       Ok (Board.mk rows cols w n (Board._cells b) (Board._legal b), pos')) ∧
  (n ≤ 0 → ∃ b, Board.__init__ fuel rng rows cols win_len n pos = Ok (b, pos)) ∧
  (0 < rows → 0 < cols → n = rows * cols → covers rng rows cols pos fuel →
     ∃ b pos', Board.__init__ fuel rng rows cols win_len n pos = Ok (b, pos') ∧
               Board._legal b = ∅ ∧ count_cells is_obstacle b = rows * cols) ∧
  (0 < n → rows ≤ 0 ∨ cols ≤ 0 → (0 < fuel)%nat →
     Board.__init__ fuel rng rows cols win_len n pos = Raise ValueError) ∧
  (0 < rows → 0 < cols → rows * cols < n →
     Board.__init__ fuel rng rows cols win_len n pos = OutOfFuel).
Proof.
  split; [intros w b pos'; apply init_any_win_len|].
  split; [apply init_no_obstacles|].
  split; [intros Hr Hc ->; by apply init_all_obstacles|].
  split; [|apply init_diverges].
  intros Hn Hdim Hfuel. destruct fuel as [|fuel']; [lia|]. by apply init_ValueError.
Qed.

Lemma init_without_validation_witness :
  (∃ b, Board.__init__ 4 (sweep 2) 2 2 0 0 0 = Ok (b, 0%nat)) ∧
  (∃ b pos', Board.__init__ 4 (sweep 2) 2 2 0 4 0 = Ok (b, pos') ∧ Board._legal b = ∅) ∧
  Board.__init__ 4 (sweep 2) 0 2 4 1 0 = Raise ValueError ∧
  Board.__init__ 4 (sweep 2) 2 2 4 5 0 = OutOfFuel.
Proof.
  split; [apply (init_without_validation 4 (sweep 2) 2 2 0 0 0); lia|].
  split.
  - destruct (init_without_validation 4 (sweep 2) 2 2 0 4 0) as (_ & _ & Hall & _).
    destruct Hall as (b & pos' & Hinit & Hlegal & _); [lia|lia|lia| |by eauto].
    apply (bool_decide_unpack _). by vm_compute.
  - split.
    + apply (init_without_validation 4 (sweep 2) 0 2 4 1 0); lia.
    + apply (init_without_validation 4 (sweep 2) 2 2 4 5 0); lia.
Defined.

(** C2 as stated fails: with one cell, one obstacle and win length 0 (an
    obstacle count that is not below the cell count, a win length below 1)
    construction returns a board. *)
Lemma init_accepts_invalid_config :
  1 * 1 ≤ 1 ∧ 0 < 1 ∧
  Board.__init__ 1 (sweep 1) 1 1 0 1 0 = Ok (Board.mk 1 1 0 1 [["#"]] ∅, 2%nat).
Proof. split; [lia|]. split; [lia|]. by vm_compute. Qed.

(** ** The human player *)

Section HumanMove.
Implicit Types (b : Board.t) (x y cell_size margin : Z) (sym : string).

(** The index is the floor of the quotient. *)
Lemma grid_index_floor coordinate cell_size margin :
  0 < cell_size + margin →
  grid_index coordinate cell_size margin * (cell_size + margin) ≤ coordinate - margin
    < (grid_index coordinate cell_size margin + 1) * (cell_size + margin).
Proof.
  intros Hp. unfold grid_index.
  pose proof (Z.div_mod (coordinate - margin) (cell_size + margin)).
  pose proof (Z.mod_pos_bound (coordinate - margin) (cell_size + margin) Hp). lia.
Qed.

Lemma grid_index_margin coordinate cell_size margin :
  0 < cell_size + margin → coordinate < margin → grid_index coordinate cell_size margin < 0.
Proof. intros Hp Hc. pose proof (grid_index_floor coordinate cell_size margin Hp). nia. Qed.

Lemma make_move_place_mark b x y cell_size margin sym :
  cell_size + margin ≠ 0 →
  Player.make_move (Player.HumanPlayer sym) b (x, y) cell_size margin =
    Board.place_mark b (grid_index y cell_size margin) (grid_index x cell_size margin) sym.
Proof.
  intros Hp. unfold Player.make_move, Py.floordiv.
  by rewrite !decide_False, !bind_Ok by done.
Qed.

Lemma make_move_outside b x y cell_size margin sym :
  well_formed b → cell_size + margin ≠ 0 →
  ¬ in_bounds (Board._rows b) (Board._cols b)
      (grid_index y cell_size margin) (grid_index x cell_size margin) →
  Player.make_move (Player.HumanPlayer sym) b (x, y) cell_size margin = Ok (false, b).
Proof.
  intros Hwf Hp Hout. rewrite make_move_place_mark by done.
  apply place_mark_illegal. intros Hij. by apply Hout, well_formed_in_bounds.
Qed.

End HumanMove.

(** C9, as the code has it: the human player's [make_move] maps the pointer
    position to the row and column that are the floor of
    [(coordinate - margin) / (cell_size + margin)] and places the mark
    itself through [place_mark], returning that call's flag and board: the
    board changes exactly when the cell is open, and a position that falls
    outside the grid gives [False] and the board unchanged. *)
Theorem make_move_spec (b : Board.t) (x y cell_size margin : Z) (sym : string) :
  well_formed b → 0 < cell_size + margin →
  let i := grid_index y cell_size margin in
  let j := grid_index x cell_size margin in
  i * (cell_size + margin) ≤ y - margin < (i + 1) * (cell_size + margin) ∧
  j * (cell_size + margin) ≤ x - margin < (j + 1) * (cell_size + margin) ∧
  Player.make_move (Player.HumanPlayer sym) b (x, y) cell_size margin =
    Board.place_mark b i j sym ∧
  ((i, j) ∈ Board._legal b →
     ∃ b', Player.make_move (Player.HumanPlayer sym) b (x, y) cell_size margin = Ok (true, b') ∧
           cell (Board._cells b') i j = Some sym ∧ ((i, j) ∉ Board._legal b')) ∧
  ((i, j) ∉ Board._legal b →
     Player.make_move (Player.HumanPlayer sym) b (x, y) cell_size margin = Ok (false, b)) ∧
  (¬ in_bounds (Board._rows b) (Board._cols b) i j →
     Player.make_move (Player.HumanPlayer sym) b (x, y) cell_size margin = Ok (false, b)).
Proof.
  intros Hwf Hp i j.
  split; [by apply grid_index_floor|]. split; [by apply grid_index_floor|].
  assert (cell_size + margin ≠ 0) as Hne by lia.
  split; [by apply make_move_place_mark|].
  split; [|split].
  - intros Hij. pose proof (well_formed_in_bounds _ _ _ Hwf Hij) as Hb.
    eexists. rewrite make_move_place_mark by done.
    split; [by apply place_mark_legal|]. simpl.
    split; [by apply (cell_update_eq _ _ _ _ _ _ (proj1 Hwf) Hb)|].
    rewrite elem_of_difference, elem_of_singleton. tauto.
  - intros Hij. rewrite make_move_place_mark by done. by apply place_mark_illegal.
  - intros Hout. by apply make_move_outside.
Qed.

Lemma make_move_spec_witness :
  well_formed sample_board ∧
  Player.make_move (Player.HumanPlayer "O") sample_board (100, 10) 80 5 =
    Board.place_mark sample_board 0 1 "O" ∧
  Player.make_move (Player.HumanPlayer "O") sample_board (100, 300) 80 5 =
    Ok (false, sample_board).
Proof.
  pose proof (Board_inv_well_formed _ sample_board_inv) as Hwf.
  split; [done|].
  destruct (make_move_spec sample_board 100 10 80 5 "O" Hwf) as (_ & _ & Hmove & _); [lia|].
  split; [exact Hmove|].
  destruct (make_move_spec sample_board 100 300 80 5 "O" Hwf) as (_ & _ & _ & _ & _ & Hout);
    [lia|].
  apply Hout. vm_compute. intros [[_ Hi] _]. done.
Defined.

(** C9 as stated fails: a click on an open cell makes [make_move] return
    [True] and a board that differs from the one it was given. *)
Lemma make_move_places_mark :
  ∃ b', Player.make_move (Player.HumanPlayer "O") sample_board (100, 10) 80 5 = Ok (true, b') ∧
        cell (Board._cells sample_board) 0 1 = Some "." ∧
        cell (Board._cells b') 0 1 = Some "O" ∧
        b' ≠ sample_board.
Proof.
  eexists. split; [by vm_compute|]. split; [done|]. split; [done|].
  intros Heq. apply (f_equal (λ b, cell (Board._cells b) 0 1)) in Heq. by vm_compute in Heq.
Qed.

(** C10: for every pointer position and every non-zero cell pitch the human
    player's move returns without raising on a well-formed board; a position
    whose row or column falls outside the grid, as every position in the top
    or left margin does, gives [False] and the board unchanged. *)
Theorem human_move_safe (b : Board.t) (x y cell_size margin : Z) (sym : string) :
  well_formed b → cell_size + margin ≠ 0 →
  (∃ moved b',
     Player.make_move (Player.HumanPlayer sym) b (x, y) cell_size margin = Ok (moved, b')) ∧
  (¬ in_bounds (Board._rows b) (Board._cols b)
       (grid_index y cell_size margin) (grid_index x cell_size margin) →
     Player.make_move (Player.HumanPlayer sym) b (x, y) cell_size margin = Ok (false, b)) ∧
  (0 < cell_size + margin → x < margin ∨ y < margin →
     (grid_index x cell_size margin < 0 ∨ grid_index y cell_size margin < 0) ∧
     Player.make_move (Player.HumanPlayer sym) b (x, y) cell_size margin = Ok (false, b)).
Proof.
  intros Hwf Hp. split; [|split].
  - rewrite make_move_place_mark by done. by apply place_mark_total.
  - by apply make_move_outside.
  - intros Hpos Hmargin.
    assert (grid_index x cell_size margin < 0 ∨ grid_index y cell_size margin < 0) as Hneg.
    { destruct Hmargin; [left|right]; by apply grid_index_margin. }
    split; [done|]. apply make_move_outside; [done..|]. unfold in_bounds. lia.
Qed.

Lemma human_move_safe_witness :
  well_formed sample_board ∧
  Player.make_move (Player.HumanPlayer "O") sample_board (3, 100) 80 5 = Ok (false, sample_board) ∧
  Player.make_move (Player.HumanPlayer "O") sample_board (100, 1000) 80 5 = Ok (false, sample_board).
Proof.
  pose proof (Board_inv_well_formed _ sample_board_inv) as Hwf.
  split; [done|]. split.
  - destruct (human_move_safe sample_board 3 100 80 5 "O" Hwf) as (_ & _ & Hmargin); [lia|].
    apply Hmargin; lia.
  - destruct (human_move_safe sample_board 100 1000 80 5 "O" Hwf) as (_ & Hout & _); [lia|].
    apply Hout. vm_compute. intros [[_ Hi] _]. done.
Defined.

(** ** The controller *)

Section Controller.
Implicit Types (g : Game.t) (pos fuel : nat) (x y : Z).

Lemma active_player g :
  Game_ok g →
  Py.getitem (Game._players g) (Game._turn g) = Ok (Player.HumanPlayer (active_symbol g)).
Proof.
  intros (-> & Hturn & _). unfold active_symbol. by destruct Hturn as [-> | ->].
Qed.

Lemma set_board_same g : Game.set_board g (Game._board g) = g.
Proof. by destruct g. Qed.

(** A click while the game is in progress, in terms of the placement it
    attempts. *)
Lemma handle_click fuel rng g pos x y moved b' :
  Game_ok g → Game._game_over g = false →
  Board.place_mark (Game._board g)
    (grid_index y (Game._cell_size g) (Game._margin g))
    (grid_index x (Game._cell_size g) (Game._margin g)) (active_symbol g) = Ok (moved, b') →
  Game.handle_event fuel rng g pos (Game.MOUSEBUTTONDOWN (x, y)) =
    if moved then
      won ← Board.check_winner b' (active_symbol g);
      if won : bool then
        Ok (Game.set_outcome (Game.set_board g b') true (Some (active_symbol g)), pos)
      else if Board.is_full b' then
        Ok (Game.set_outcome (Game.set_board g b') true None, pos)
      else Ok (Game.set_turn (Game.set_board g b') (1 - Game._turn g), pos)
    else Ok (Game.set_board g b', pos).
Proof.
  intros Hok Hover Hplace. unfold Game.handle_event. rewrite Hover. simpl negb. cbv iota.
  rewrite (active_player g Hok), bind_Ok.
  rewrite make_move_place_mark by (destruct Hok as (_ & _ & ? & _); lia).
  rewrite Hplace, bind_Ok. by destruct moved.
Qed.

End Controller.

(** C6: in every controller state in progress a click is handled without
    raising.  When the placement fails the state is unchanged; when it
    succeeds and the mover has not won and the board is not full the turn
    becomes [1 - turn], the other of 0 and 1, and the game stays in
    progress; when it succeeds with a win or a full board the game is over
    and the turn is the one before the click. *)
Theorem move_event_turn (fuel : nat) (rng : nat → Z) (g : Game.t) (pos : nat) (x y : Z) :
  Game_ok g → Game._game_over g = false →
  ∃ moved b' g',
    Board.place_mark (Game._board g)
      (grid_index y (Game._cell_size g) (Game._margin g))
      (grid_index x (Game._cell_size g) (Game._margin g)) (active_symbol g) = Ok (moved, b') ∧
    Game.handle_event fuel rng g pos (Game.MOUSEBUTTONDOWN (x, y)) = Ok (g', pos) ∧
    (moved = false → g' = g) ∧
    (moved = true →
       Game._board g' = b' ∧
       ∃ won, Board.check_winner b' (active_symbol g) = Ok won ∧
         (won = false → Board.is_full b' = false →
            Game._turn g' = 1 - Game._turn g ∧ Game._turn g' ≠ Game._turn g ∧
            (Game._turn g' = 0 ∨ Game._turn g' = 1) ∧
            Game._game_over g' = false ∧ Game._winner g' = Game._winner g) ∧
         (won = true →
            Game._turn g' = Game._turn g ∧ Game._game_over g' = true ∧
            Game._winner g' = Some (active_symbol g)) ∧
         (won = false → Board.is_full b' = true →
            Game._turn g' = Game._turn g ∧ Game._game_over g' = true ∧
            Game._winner g' = None)).
Proof.
  intros Hok Hover. pose proof Hok as (_ & Hturn & _ & Hwf).
  destruct (place_mark_total (Game._board g)
              (grid_index y (Game._cell_size g) (Game._margin g))
              (grid_index x (Game._cell_size g) (Game._margin g)) (active_symbol g) Hwf)
    as (moved & b' & Hplace).
  pose proof (handle_click fuel rng g pos x y moved b' Hok Hover Hplace) as Hev.
  destruct moved.
  - pose proof (place_mark_well_formed _ _ _ _ _ _ Hwf Hplace) as [Hs' _].
    destruct (check_winner_spec b' (active_symbol g) Hs') as (won & Hwon & _).
    rewrite Hwon, bind_Ok in Hev. exists true, b'.
    destruct won; [|destruct (Board.is_full b') eqn:Hfull].
    + eexists. split; [done|]. split; [done|]. split; [done|]. intros _.
      split; [done|]. exists true. split; [done|]. by repeat split.
    + eexists. split; [done|]. split; [done|]. split; [done|]. intros _.
      split; [done|]. exists false. split; [done|]. by repeat split.
    + eexists. split; [done|]. split; [done|]. split; [done|]. intros _.
      split; [done|]. exists false. split; [done|]. split; [|by split].
      intros _ _. simpl. repeat split; try done; lia.
  - exists false, b', (Game.set_board g b'). split; [done|]. split; [done|].
    split; [|done]. intros _.
    destruct (decide ((grid_index y (Game._cell_size g) (Game._margin g),
                       grid_index x (Game._cell_size g) (Game._margin g))
                      ∈ Board._legal (Game._board g))) as [Hij|Hij].
    + rewrite place_mark_legal in Hplace by done. by simplify_eq.
    + rewrite place_mark_illegal in Hplace by done. simplify_eq.
      apply set_board_same.
Qed.

Lemma sample_game_ok : Game_ok sample_game.
Proof.
  split; [done|]. split; [by right|]. split; [simpl; lia|].
  apply Board_inv_well_formed, sample_board_inv.
Defined.

Lemma move_event_turn_witness :
  Game_ok sample_game ∧
  (∃ g', Game.handle_event 0 (sweep 3) sample_game 0 (Game.MOUSEBUTTONDOWN (100, 10))
           = Ok (g', 0%nat) ∧ Game._turn g' = 0) ∧
  Game.handle_event 0 (sweep 3) sample_game 0 (Game.MOUSEBUTTONDOWN (100, 100))
    = Ok (sample_game, 0%nat).
Proof.
  split; [apply sample_game_ok|]. split.
  - destruct (move_event_turn 0 (sweep 3) sample_game 0 100 10 sample_game_ok eq_refl)
      as (moved & b' & g' & Hplace & Hev & _ & Hmoved).
    exists g'. split; [done|].
    assert (moved = true) as -> by (vm_compute in Hplace; congruence).
    destruct (Hmoved eq_refl) as (_ & won & Hwon & Hflip & _).
    assert (b' = Board.mk 3 3 3 1 [["#"; "O"; "."]; ["."; "X"; "."]; ["."; "."; "."]]
                   (list_to_set [(0, 2); (1, 0); (1, 2); (2, 0); (2, 1); (2, 2)])) as ->.
    { vm_compute in Hplace. injection Hplace as <-. by vm_compute. }
    vm_compute in Hwon. injection Hwon as <-.
    destruct Hflip as (Ht & _); [done|by vm_compute|]. by rewrite Ht.
  - destruct (move_event_turn 0 (sweep 3) sample_game 0 100 100 sample_game_ok eq_refl)
      as (moved & b' & g' & Hplace & Hev & Hfail & _).
    assert (moved = false) as -> by (vm_compute in Hplace; congruence).
    rewrite Hev. by rewrite (Hfail eq_refl).
Defined.

(** C7: the restart key while the game is over replaces the board by the
    one [reset] returns (a new layout drawn for the stored configuration:
    the configured number of obstacles and no mark), sets the turn to 0,
    clears the winner and puts the game in progress; the reset returns once
    the draws have covered the grid.  While the game is in progress the
    restart key changes nothing. *)
Theorem restart_spec (fuel : nat) (rng : nat → Z) (g : Game.t) (pos : nat) :
  (Game._game_over g = false →
     Game.handle_event fuel rng g pos (Game.KEYDOWN Game.K_r) = Ok (g, pos)) ∧
  (Game._game_over g = true →
     (∀ b' pos', Board.reset fuel rng (Game._board g) pos = Ok (b', pos') →
        Game.handle_event fuel rng g pos (Game.KEYDOWN Game.K_r) =
          Ok (Game.mk (Game._rows g) (Game._cols g) (Game._win_len g) (Game._num_obstacles g)
                b' (Game._players g) 0 (Game._cell_size g) (Game._margin g) false None,
              pos')) ∧
     (0 ≤ Board._rows (Game._board g) → 0 ≤ Board._cols (Game._board g) →
      0 ≤ Board._num_obstacles (Game._board g)
        ≤ Board._rows (Game._board g) * Board._cols (Game._board g) →
        (covers rng (Board._rows (Game._board g)) (Board._cols (Game._board g)) pos fuel →
           ∃ b' pos', Board.reset fuel rng (Game._board g) pos = Ok (b', pos')) ∧
        (∀ b' pos', Board.reset fuel rng (Game._board g) pos = Ok (b', pos') →
           fresh_board (Board._rows (Game._board g)) (Board._cols (Game._board g))
             (Board._win_len (Game._board g)) (Board._num_obstacles (Game._board g)) b'))).
Proof.
  unfold Game.handle_event. split; [intros Hover; by rewrite Hover|].
  intros Hover. split.
  - intros b' pos' Hreset. rewrite Hover, decide_True by done.
    by rewrite Hreset, bind_Ok.
  - intros Hr Hc Hn. unfold Board.reset. split.
    + intros Hcov. by apply init_board_total.
    + intros b' pos'. apply init_board_fresh; lia.
Qed.

Lemma restart_spec_witness :
  Game.handle_event 9 (sweep 3) sample_game 0 (Game.KEYDOWN Game.K_r) = Ok (sample_game, 0%nat) ∧
  ∃ g' pos',
    Game.handle_event 9 (sweep 3) sample_game_over 0 (Game.KEYDOWN Game.K_r) = Ok (g', pos') ∧
    Game._turn g' = 0 ∧ Game._game_over g' = false ∧ Game._winner g' = None ∧
    fresh_board 3 3 3 1 (Game._board g').
Proof.
  split; [by apply (restart_spec 9 (sweep 3) sample_game 0)|].
  destruct (restart_spec 9 (sweep 3) sample_game_over 0) as [_ Hover].
  destruct (Hover eq_refl) as [Hev Hreset].
  destruct Hreset as [Htotal Hfresh]; [simpl; lia..|].
  destruct Htotal as (b' & pos' & Hb').
  { apply (bool_decide_unpack _). by vm_compute. }
  eexists _, pos'. split; [by apply Hev|]. simpl. do 3 (split; [done|]).
  by apply (Hfresh b' pos').
Defined.

(** ** Scenarios *)

(** On a 5×5 board without obstacles and with win length 4, three marks of
    [X] in the first row do not win, the fourth wins, [O] has not won, and
    the fourth cell is then refused to [O]. *)
Example four_in_a_row :
  ('(b0, _) ← Board.__init__ 0 (sweep 5) 5 5 4 0 0;
   '(_, b1) ← Board.place_mark b0 0 0 "X";
   '(_, b2) ← Board.place_mark b1 0 1 "X";
   '(_, b3) ← Board.place_mark b2 0 2 "X";
   won3 ← Board.check_winner b3 "X";
   '(_, b4) ← Board.place_mark b3 0 3 "X";
   won4 ← Board.check_winner b4 "X";
   wonO ← Board.check_winner b4 "O";
   '(moved, _) ← Board.place_mark b4 0 3 "O";
   Ok (won3, won4, wonO, moved)) = Ok (false, true, false, false).
Proof. by vm_compute. Qed.

(** * Further properties *)

(** ** The board between moves *)

Section BoardMoves.
Implicit Types (b : Board.t) (i j : Z) (sym : string) (p : string → bool).

(** A placement that reports success was at an open coordinate and
    produced the updated board. *)
Lemma place_mark_moved b i j sym b' :
  well_formed b → Board.place_mark b i j sym = Ok (true, b') →
  (i, j) ∈ Board._legal b ∧
  b' = Board.mk (Board._rows b) (Board._cols b) (Board._win_len b)
         (Board._num_obstacles b) (update (Board._cells b) i j sym)
         (Board._legal b ∖ {[(i, j)]}).
Proof.
  intros Hwf. destruct (decide ((i, j) ∈ Board._legal b)) as [Hij|Hij].
  - rewrite place_mark_legal by done. by intros [= <-].
  - by rewrite place_mark_illegal.
Qed.

(** How a successful placement changes the number of cells that satisfy a
    predicate the empty cell does not satisfy. *)
Lemma place_mark_count_cells b i j sym b' p :
  Board_inv b → Board.place_mark b i j sym = Ok (true, b') → p "." = false →
  count_cells p b' = count_cells p b + (if p sym then 1 else 0).
Proof.
  intros Hinv Hplace Hp.
  destruct (place_mark_moved b i j sym b' (Board_inv_well_formed _ Hinv) Hplace) as [Hij ->].
  apply (Board_inv_legal _ _ _ Hinv) in Hij as [Hb Hcell].
  unfold count_cells. simpl. destruct (p sym) eqn:Hsym.
  - rewrite (cells_where_update_gain p _ _ _ _ _ "." sym (proj1 Hinv) Hb Hcell Hp Hsym). lia.
  - rewrite (cells_where_update_same p _ _ _ _ _ "." sym (proj1 Hinv) Hb Hcell Hp Hsym). lia.
Qed.

(** Cells that hold [other] are the same before and after a write of
    another symbol over a cell that did not hold it. *)
Lemma cell_update_other rows cols cells i j c sym other x y :
  shape_ok rows cols cells → in_bounds rows cols i j →
  cell cells i j = Some c → c ≠ other → sym ≠ other →
  cell (update cells i j sym) x y = Some other ↔ cell cells x y = Some other.
Proof.
  intros Hs Hb Hc Hne Hsym. destruct (decide ((x, y) = (i, j))) as [Heq|Hxy].
  - simplify_eq. rewrite (cell_update_eq _ _ _ _ _ _ Hs Hb), Hc. split; congruence.
  - rewrite cell_update_ne; [done| | |done]; unfold in_bounds in Hb; lia.
Qed.

Lemma has_run_update b i j c sym other legal n :
  shape_ok (Board._rows b) (Board._cols b) (Board._cells b) →
  in_bounds (Board._rows b) (Board._cols b) i j →
  cell (Board._cells b) i j = Some c → c ≠ other → sym ≠ other →
  has_run (Board.mk (Board._rows b) (Board._cols b) (Board._win_len b)
             (Board._num_obstacles b) (update (Board._cells b) i j sym) legal) other n
  ↔ has_run b other n.
Proof.
  intros Hs Hb Hc Hne Hsym. unfold has_run, run_at. simpl.
  split; intros (x & y & d & len & Hlen & Hn & Hrun); exists x, y, d, len;
    (split; [done|]); (split; [done|]); intros k Hk; destruct (Hrun k Hk) as [Hin Hcell];
    (split; [done|]).
  - by apply (cell_update_other _ _ _ _ _ _ _ _ _ _ Hs Hb Hc Hne Hsym) in Hcell.
  - by apply (cell_update_other _ _ _ _ _ _ _ _ _ _ Hs Hb Hc Hne Hsym).
Qed.

(** A cell that holds [sym] on a board where no run of [sym] exists cannot
    be: a run starts with one cell. *)
Lemma has_run_cell b sym n :
  has_run b sym n →
  ∃ i j, in_bounds (Board._rows b) (Board._cols b) i j ∧ cell (Board._cells b) i j = Some sym.
Proof.
  intros (i & j & d & len & Hlen & _ & Hrun). exists i, j.
  destruct (Hrun 0) as [Hb Hc]; [lia|]. by rewrite !Z.mul_0_l, !Z.add_0_r in Hb, Hc.
Qed.

(** A run fits in the grid. *)
Lemma has_run_length b sym n :
  has_run b sym n → n ≤ Z.max (Board._rows b) (Board._cols b).
Proof.
  intros (i & j & d & len & Hlen & Hn & Hrun).
  destruct (Hrun 0) as [Hfirst _]; [lia|]. destruct (Hrun (len - 1)) as [Hlast _]; [lia|].
  unfold in_bounds in Hfirst, Hlast. destruct d; simpl in *; lia.
Qed.

Lemma count_cells_zero b p i j c :
  count_cells p b = 0 → in_bounds (Board._rows b) (Board._cols b) i j →
  cell (Board._cells b) i j = Some c → p c = false.
Proof.
  unfold count_cells. intros Hzero Hb Hc. destruct (p c) eqn:Hp; [|done].
  assert ((i, j) ∈ cells_where p (Board._rows b) (Board._cols b) (Board._cells b)) as Hin.
  { apply elem_of_cells_where. split; [done|]. by exists c. }
  destruct (cells_where p _ _ _); [by apply elem_of_nil in Hin|simpl in Hzero; lia].
Qed.

End BoardMoves.

(** X1: under the invariant, [is_full] is true exactly when no cell of the
    grid is empty, that is when obstacles and marks fill the grid. *)
Theorem is_full_iff_no_empty_cell (b : Board.t) :
  Board_inv b →
  (Board.is_full b = true ↔
     ∀ i j, in_bounds (Board._rows b) (Board._cols b) i j →
            cell (Board._cells b) i j ≠ Some ".") ∧
  (Board.is_full b = true ↔
     count_cells is_obstacle b + count_cells is_mark b = Board._rows b * Board._cols b).
Proof.
  intros Hinv. unfold Board.is_full. rewrite !bool_decide_eq_true. split.
  - split.
    + intros Hempty i j Hb Hc.
      assert ((i, j) ∈ Board._legal b) as Hij by (by apply (Board_inv_legal b i j Hinv)).
      rewrite Hempty in Hij. by apply not_elem_of_empty in Hij.
    + intros Hnone. apply set_eq. intros [i j]. split; [|by intros ?%not_elem_of_empty].
      intros [Hb Hc]%(Board_inv_legal b i j Hinv). by destruct (Hnone i j Hb).
  - pose proof (Board_inv_size b Hinv) as Hsize. split.
    + intros Hempty. rewrite Hempty, size_empty in Hsize. lia.
    + intros Hcount. apply leibniz_equiv, size_empty_inv. lia.
Qed.

Lemma blocked_board_inv : Board_inv blocked_board.
Proof. split; [repeat split; try done; repeat constructor|by vm_compute]. Defined.

Lemma is_full_iff_no_empty_cell_witness :
  Board_inv blocked_board ∧ Board.is_full blocked_board = true ∧
  Board_inv sample_board ∧
  ¬ (∀ i j, in_bounds 3 3 i j → cell (Board._cells sample_board) i j ≠ Some ".").
Proof.
  split; [apply blocked_board_inv|]. split.
  - apply (is_full_iff_no_empty_cell blocked_board blocked_board_inv). by vm_compute.
  - split; [apply sample_board_inv|].
    intros Hnone. apply (is_full_iff_no_empty_cell sample_board sample_board_inv) in Hnone.
    by vm_compute in Hnone.
Defined.

(** X2: a coordinate is taken at most once: after a placement that
    succeeded, a second placement at the same coordinate, with any symbol,
    fails and leaves the board as the first one made it. *)
Theorem place_mark_twice (b b' : Board.t) (i j : Z) (sym sym' : string) :
  Board.place_mark b i j sym = Ok (true, b') →
  Board.place_mark b' i j sym' = Ok (false, b') ∧ Board.is_legal_move b' i j = false.
Proof.
  unfold Board.place_mark at 1. case_decide as Hij; [|done].
  destruct (Board.set _ _ _ _) as [cells'| |]; try done.
  rewrite bind_Ok. intros [= <-].
  assert ((i, j) ∉ Board._legal b ∖ {[(i, j)]}) as Hgone.
  { rewrite elem_of_difference, elem_of_singleton. tauto. }
  split; [by apply place_mark_illegal|].
  unfold Board.is_legal_move. simpl. by apply bool_decide_eq_false.
Qed.

Lemma place_mark_twice_witness :
  ∃ b', Board.place_mark sample_board 0 1 "O" = Ok (true, b') ∧
        Board.place_mark b' 0 1 "X" = Ok (false, b').
Proof.
  eexists. split; [by vm_compute|].
  eapply (place_mark_twice sample_board _ 0 1 "O" "X"). by vm_compute.
Defined.

(** X3: under the invariant a successful placement of a player's symbol
    adds one mark, takes one empty cell and one open coordinate away, and
    leaves the number of obstacles as it was. *)
Theorem place_mark_counts (b b' : Board.t) (i j : Z) (sym : string) :
  Board_inv b → is_mark sym = true →
  Board.place_mark b i j sym = Ok (true, b') →
  count_cells is_obstacle b' = count_cells is_obstacle b ∧
  count_cells is_mark b' = count_cells is_mark b + 1 ∧
  count_cells is_empty b' = count_cells is_empty b - 1 ∧
  Z.of_nat (size (Board._legal b')) = Z.of_nat (size (Board._legal b)) - 1.
Proof.
  intros Hinv Hsym Hplace.
  pose proof (place_mark_inv _ _ _ _ _ _ Hinv Hsym Hplace) as Hinv'.
  assert (is_obstacle sym = false ∧ is_empty sym = false) as [Hobs Hemp].
  { unfold is_mark in Hsym. by destruct (is_obstacle sym), (is_empty sym). }
  pose proof (place_mark_count_cells b i j sym b' is_obstacle Hinv Hplace eq_refl) as Ho.
  pose proof (place_mark_count_cells b i j sym b' is_mark Hinv Hplace eq_refl) as Hm.
  rewrite Hobs in Ho. rewrite Hsym in Hm.
  pose proof (Board_inv_size _ Hinv) as Hsize. pose proof (Board_inv_size _ Hinv') as Hsize'.
  pose proof (count_three _ _ _ (proj1 Hinv)) as Hthree.
  pose proof (count_three _ _ _ (proj1 Hinv')) as Hthree'.
  destruct (place_mark_moved b i j sym b' (Board_inv_well_formed _ Hinv) Hplace) as [_ Hb'].
  assert (Board._rows b' = Board._rows b ∧ Board._cols b' = Board._cols b) as [Hr Hc]
    by (by rewrite Hb').
  unfold count_cells in *. rewrite Hr, Hc in *. lia.
Qed.

Lemma place_mark_counts_witness :
  ∃ b', Board.place_mark sample_board 2 2 "O" = Ok (true, b') ∧
        count_cells is_obstacle b' = 1 ∧ count_cells is_mark b' = 2 ∧
        Z.of_nat (size (Board._legal b')) = 6.
Proof.
  eexists. split; [by vm_compute|].
  destruct (place_mark_counts sample_board _ 2 2 "O" sample_board_inv eq_refl
              ltac:(by vm_compute)) as (Ho & Hm & _ & Hsize).
  rewrite Ho, Hm, Hsize. by vm_compute.
Defined.

(** ** Win detection for any win length *)

(** X4: on a grid of the declared shape [check_winner] returns for every
    win length, and returns [True] exactly when the symbol has a run of at
    least [win_len] cells that is at least two cells long: a win length
    below 2 behaves as 2. *)
Theorem check_winner_run_max (b : Board.t) (sym : string) :
  shape_ok (Board._rows b) (Board._cols b) (Board._cells b) →
  ∃ v, Board.check_winner b sym = Ok v ∧
       (v = true ↔ has_run b sym (Z.max 2 (Board._win_len b))).
Proof. intros Hs. by apply check_winner_spec. Qed.

Lemma check_winner_run_max_witness :
  ∃ v, Board.check_winner unit_board_X "X" = Ok v ∧ (v = true ↔ has_run unit_board_X "X" 2).
Proof.
  apply (check_winner_run_max unit_board_X "X"). repeat split; try done. repeat constructor.
Defined.

(** X5: a win length longer than both sides of the grid makes winning
    impossible: [check_winner] returns [False] for every symbol. *)
Theorem check_winner_long_win_len (b : Board.t) (sym : string) :
  shape_ok (Board._rows b) (Board._cols b) (Board._cells b) →
  Z.max (Board._rows b) (Board._cols b) < Board._win_len b →
  Board.check_winner b sym = Ok false.
Proof.
  intros Hs Hlong. destruct (check_winner_spec b sym Hs) as ([|] & Hv & Hrun); [|done].
  destruct Hrun as [Hrun _]. apply has_run_length in Hrun; [lia|done].
Qed.

Lemma check_winner_long_win_len_witness :
  Board.check_winner (Board.mk 1 2 3 0 [["X"; "X"]] ∅) "X" = Ok false.
Proof.
  apply check_winner_long_win_len; [|simpl; lia].
  repeat split; try done. repeat constructor.
Defined.

Lemma check_winner_update_other (b b' : Board.t) (i j : Z) (sym other : string) :
  Board_inv b → Board.place_mark b i j sym = Ok (true, b') →
  other ≠ sym → other ≠ "." →
  Board.check_winner b' other = Board.check_winner b other.
Proof.
  intros Hinv Hplace Hsym Hdot.
  destruct (place_mark_moved b i j sym b' (Board_inv_well_formed _ Hinv) Hplace) as [Hij ->].
  apply (Board_inv_legal _ _ _ Hinv) in Hij as [Hb Hcell].
  pose proof (proj1 Hinv) as Hs.
  destruct (check_winner_spec b other Hs) as (v & Hv & Hrun).
  destruct (check_winner_spec
              (Board.mk (Board._rows b) (Board._cols b) (Board._win_len b)
                 (Board._num_obstacles b) (update (Board._cells b) i j sym)
                 (Board._legal b ∖ {[(i, j)]})) other) as (v' & Hv' & Hrun').
  { simpl. by apply shape_update. }
  rewrite Hv, Hv'. f_equal. simpl in Hrun'.
  rewrite (has_run_update b i j "." sym other) in Hrun' by done.
  destruct v, v'; try done; [apply Hrun', Hrun|symmetry; apply Hrun, Hrun']; done.
Qed.

(** X6: a move cannot win for the opponent: after a successful placement
    of [sym], [check_winner] for any other symbol that is not the empty
    cell returns what it returned before. *)
Theorem check_winner_other_symbol (b b' : Board.t) (i j : Z) (sym other : string) :
  Board_inv b → Board.place_mark b i j sym = Ok (true, b') →
  other ≠ sym → other ≠ "." →
  Board.check_winner b' other = Board.check_winner b other.
Proof. apply check_winner_update_other. Qed.

Lemma check_winner_other_symbol_witness :
  ∃ b', Board.place_mark sample_board 2 2 "O" = Ok (true, b') ∧
        Board.check_winner b' "X" = Board.check_winner sample_board "X".
Proof.
  eexists. split; [by vm_compute|].
  by apply (check_winner_other_symbol sample_board _ 2 2 "O" "X" sample_board_inv).
Defined.

(** ** Construction *)

Section Construction.
Variable rng : nat → Z.
Implicit Types (rows cols win_len n : Z) (pos fuel : nat).

(** With positive dimensions the placement loop does not raise. *)
Lemma place_loop_no_raise fuel rows cols n cells placed pos e :
  placing rows cols cells placed → 0 < rows → 0 < cols →
  Board.place_loop fuel rng rows cols n cells placed pos ≠ Raise e.
Proof.
  intros Hp Hr Hc. revert cells placed pos Hp.
  induction fuel as [|fuel IH]; intros cells placed pos Hp.
  - destruct (decide (placed < n)).
    + by rewrite place_loop_no_fuel.
    + by rewrite place_loop_done by lia.
  - destruct (decide (placed < n)) as [Hlt|Hge]; [|by rewrite place_loop_done by lia].
    destruct (place_loop_step rng rows cols n fuel cells placed pos)
      as (c & Hb & Hcell & ->); [apply Hp|done..|].
    case_decide as Hdot; [subst c|].
    + apply IH. by apply placing_step.
    + by apply IH.
Qed.

Lemma init_no_raise fuel rows cols win_len n pos e :
  0 < rows → 0 < cols →
  Board.__init__ fuel rng rows cols win_len n pos ≠ Raise e.
Proof.
  intros Hr Hc. unfold Board.__init__. rewrite init_board_unfold by lia.
  destruct (Board.place_loop _ _ _ _ _ _ _ _) as [[cells pos']|e'|] eqn:Hloop; try done.
  by apply place_loop_no_raise in Hloop; [|apply placing_empty; lia|..].
Qed.

End Construction.

(** X7: with at least one iteration allowed, construction raises exactly
    when obstacles are requested and a dimension is not positive, and what
    it raises is [ValueError]; in particular construction with positive
    dimensions never raises. *)
Theorem init_raises_iff (fuel : nat) (rng : nat → Z) (rows cols win_len n : Z)
    (pos : nat) (e : exn) :
  (0 < fuel)%nat →
  Board.__init__ fuel rng rows cols win_len n pos = Raise e ↔
  e = ValueError ∧ 0 < n ∧ (rows ≤ 0 ∨ cols ≤ 0).
Proof.
  intros Hfuel. destruct fuel as [|fuel']; [lia|]. split.
  - intros Hraise. destruct (decide (n ≤ 0)) as [Hn|Hn].
    { destruct (init_no_obstacles rng (S fuel') rows cols win_len n pos Hn) as [b Hb].
      congruence. }
    destruct (decide (rows ≤ 0 ∨ cols ≤ 0)) as [Hdim|Hdim].
    + rewrite init_ValueError in Hraise by (done || lia).
      split; [congruence|]. split; [lia|done].
    + by apply init_no_raise in Hraise; [|lia..].
  - intros (-> & Hn & Hdim). by apply init_ValueError.
Qed.

Lemma init_raises_iff_witness :
  Board.__init__ 3 (sweep 2) 2 0 4 1 0 = Raise ValueError ∧
  Board.__init__ 3 (sweep 2) 2 2 4 9 0 ≠ Raise ValueError.
Proof.
  split.
  - apply (proj2 (init_raises_iff 3 (sweep 2) 2 0 4 1 0 ValueError ltac:(lia))).
    split; [done|lia].
  - intros Hraise.
    apply (proj1 (init_raises_iff 3 (sweep 2) 2 2 4 9 0 ValueError ltac:(lia))) in Hraise. lia.
Defined.

Lemma is_full_size (b : Board.t) :
  Board.is_full b = true ↔ size (Board._legal b) = 0%nat.
Proof.
  unfold Board.is_full. rewrite bool_decide_eq_true. split.
  - intros ->. apply size_empty.
  - intros Hsize. by apply leibniz_equiv, size_empty_inv.
Qed.

(** X8: on the board a construction with non-negative dimensions and
    obstacle count returns, no player's symbol has won, and the board is
    full exactly when every cell was asked to be an obstacle. *)
Theorem init_no_winner (fuel : nat) (rng : nat → Z) (rows cols win_len n : Z)
    (pos : nat) (b : Board.t) (pos' : nat) :
  0 ≤ rows → 0 ≤ cols → 0 ≤ n →
  Board.__init__ fuel rng rows cols win_len n pos = Ok (b, pos') →
  (∀ sym, is_mark sym = true → Board.check_winner b sym = Ok false) ∧
  (Board.is_full b = true ↔ n = rows * cols).
Proof.
  intros Hr Hc Hn Hinit.
  destruct (init_board_fresh rng _ _ _ _ _ _ _ _ Hr Hc Hn Hinit)
    as (Hrows & Hcols & _ & _ & Hinv & Hobs & Hmark & _ & Hsize).
  split.
  - intros sym Hsym.
    destruct (check_winner_spec b sym (proj1 Hinv)) as ([|] & Hv & Hrun); [|done].
    destruct Hrun as [Hrun _].
    destruct (has_run_cell _ _ _ (Hrun eq_refl)) as (i & j & Hb & Hcell).
    pose proof (count_cells_zero b is_mark i j sym Hmark Hb Hcell). congruence.
  - rewrite is_full_size. lia.
Qed.

Lemma init_no_winner_witness :
  ∃ b pos', Board.__init__ 9 (sweep 3) 3 3 3 2 0 = Ok (b, pos') ∧
            Board.check_winner b "X" = Ok false ∧ Board.is_full b ≠ true.
Proof.
  eexists _, _. split; [by vm_compute|].
  destruct (init_no_winner 9 (sweep 3) 3 3 3 2 0 _ _ ltac:(lia) ltac:(lia) ltac:(lia)
              ltac:(by vm_compute)) as [Hwin Hfull].
  split; [by apply Hwin|]. rewrite Hfull. lia.
Defined.

(** ** The controller between events *)

Section GameInvariant.
Implicit Types (g : Game.t) (b : Board.t) (pos fuel : nat).

Lemma no_mark_no_winner b sym :
  Board_inv b → count_cells is_mark b = 0 → is_mark sym = true →
  Board.check_winner b sym = Ok false.
Proof.
  intros Hinv Hmark Hsym.
  destruct (check_winner_spec b sym (proj1 Hinv)) as ([|] & Hv & Hrun); [|done].
  destruct Hrun as [Hrun _].
  destruct (has_run_cell _ _ _ (Hrun eq_refl)) as (i & j & Hb & Hcell).
  pose proof (count_cells_zero b is_mark i j sym Hmark Hb Hcell). congruence.
Qed.

Lemma no_mark_no_sym b sym :
  count_cells is_mark b = 0 → is_mark sym = true → count_sym sym b = 0.
Proof.
  intros Hmark Hsym. unfold count_sym, count_cells, cells_where.
  rewrite filter_none; [done|]. intros [i j] Hij%elem_of_coords. simpl.
  destruct (cell (Board._cells b) i j) as [c|] eqn:Hcell; [|done]. simpl.
  pose proof (count_cells_zero b is_mark i j c Hmark Hij Hcell) as Hc.
  rewrite bool_decide_eq_true. intros ->. congruence.
Qed.

(** A game on a freshly drawn board, [X] to move, satisfies the invariant. *)
Lemma Game_inv_fresh g :
  Game._players g = [Player.HumanPlayer "X"; Player.HumanPlayer "O"] →
  0 < Game._cell_size g + Game._margin g →
  Game._turn g = 0 → Game._game_over g = false → Game._winner g = None →
  fresh_board 5 5 4 5 (Game._board g) → Game_inv g.
Proof.
  intros Hplayers Hpitch Hturn Hover Hwinner
    (Hrows & Hcols & Hwin & Hnum & Hinv & Hobs & Hmark & _ & Hsize).
  pose proof (no_mark_no_sym _ "X" Hmark eq_refl) as HX.
  pose proof (no_mark_no_sym _ "O" Hmark eq_refl) as HO.
  unfold Game_inv, active_symbol, waiting_symbol. rewrite Hturn, Hover. simpl.
  split. { split; [done|]. split; [by left|]. split; [done|]. by apply Board_inv_well_formed. }
  do 6 (split; [done|]). split; [lia|].
  split; [by apply no_mark_no_winner|]. split; [|done]. intros _.
  split; [done|]. split; [lia|]. split; [|by apply no_mark_no_winner].
  apply not_true_is_false. rewrite is_full_size. lia.
Qed.

Lemma Game_inv_init fuel rng pos g pos' :
  Game.__init__ fuel rng pos = Ok (g, pos') → Game_inv g.
Proof.
  unfold Game.__init__.
  destruct (Board.__init__ _ _ _ _ _ _ _) as [[b pos'']| |] eqn:Hinit; try done.
  rewrite bind_Ok. intros [= <- <-].
  apply Game_inv_fresh; try done.
  by apply (init_board_fresh rng fuel 5 5 4 5 pos b pos'').
Qed.

Lemma Game_inv_restart fuel rng g pos g' pos' :
  Game_inv g → Game._game_over g = true →
  Game.handle_event fuel rng g pos (Game.KEYDOWN Game.K_r) = Ok (g', pos') → Game_inv g'.
Proof.
  intros ((Hplayers & _ & Hpitch & _) & _ & Hrows & Hcols & Hwin & Hnum & _) Hover.
  unfold Game.handle_event. rewrite Hover, decide_True by done.
  unfold Board.reset. rewrite Hrows, Hcols, Hwin, Hnum.
  destruct (Board._init_board _ _ _ _ _ _ _) as [[b pos'']| |] eqn:Hinit; try done.
  rewrite bind_Ok. intros [= <- <-].
  apply Game_inv_fresh; try done.
  by apply (init_board_fresh rng fuel 5 5 4 5 pos b pos'').
Qed.

Lemma active_symbol_mark g : is_mark (active_symbol g) = true.
Proof. unfold active_symbol. by case_decide. Qed.

Lemma waiting_symbol_other g :
  waiting_symbol g ≠ active_symbol g ∧ waiting_symbol g ≠ ".".
Proof. unfold waiting_symbol, active_symbol. by case_decide. Qed.

(** A successful move keeps the invariant. *)
Lemma Game_inv_move fuel rng g pos x y b' g' pos' :
  Game_inv g → Game._game_over g = false →
  Board.place_mark (Game._board g)
    (grid_index y (Game._cell_size g) (Game._margin g))
    (grid_index x (Game._cell_size g) (Game._margin g)) (active_symbol g) = Ok (true, b') →
  Game.handle_event fuel rng g pos (Game.MOUSEBUTTONDOWN (x, y)) = Ok (g', pos') →
  Game_inv g'.
Proof.
  intros (Hok & Hinv & Hrows & Hcols & Hwin & Hnum & Hobs & Hmarks & Hwait & Hprog & _)
    Hover Hplace.
  destruct (Hprog Hover) as (Hwinner & Hparity & _ & _).
  rewrite (handle_click fuel rng g pos x y true b' Hok Hover Hplace).
  pose proof (active_symbol_mark g) as Hsym.
  pose proof (waiting_symbol_other g) as [Hother Hdot].
  pose proof (place_mark_inv _ _ _ _ _ _ Hinv Hsym Hplace) as Hinv'.
  pose proof (check_winner_update_other _ _ _ _ _ _ Hinv Hplace Hother Hdot) as Hwait'.
  rewrite Hwait in Hwait'.
  pose proof (place_mark_count_cells _ _ _ _ _ is_obstacle Hinv Hplace eq_refl) as Hobs'.
  pose proof (place_mark_count_cells _ _ _ _ _ is_mark Hinv Hplace eq_refl) as Hmarks'.
  pose proof (place_mark_count_cells _ _ _ _ _ (λ c, bool_decide (c = "X")) Hinv Hplace
                eq_refl) as HX.
  pose proof (place_mark_count_cells _ _ _ _ _ (λ c, bool_decide (c = "O")) Hinv Hplace
                eq_refl) as HO.
  fold (count_sym "X" b') (count_sym "X" (Game._board g)) in HX.
  fold (count_sym "O" b') (count_sym "O" (Game._board g)) in HO.
  destruct (place_mark_moved _ _ _ _ _ (Board_inv_well_formed _ Hinv) Hplace) as [_ Hb'].
  assert (Board._rows b' = 5 ∧ Board._cols b' = 5 ∧ Board._win_len b' = 4 ∧
          Board._num_obstacles b' = 5) as (Hrows' & Hcols' & Hwin' & Hnum').
  { by rewrite Hb'. }
  assert (count_cells is_obstacle b' = 5 ∧
          count_cells is_mark b' = count_sym "X" b' + count_sym "O" b' ∧
          count_sym "X" b' + Game._turn g = count_sym "O" b' + 1) as (Ho5 & Hxo & Hpar).
  { destruct Hok as (_ & Hturn & _). revert Hobs' Hmarks' HX HO Hparity.
    unfold active_symbol. destruct Hturn as [Hturn|Hturn]; rewrite Hturn; simpl;
      intros; lia. }
  assert (Game_ok (Game.set_board g b')) as Hok'.
  { destruct Hok as (? & ? & ? & ?). repeat split; try done;
      by apply Board_inv_well_formed. }
  destruct (Board.check_winner b' (active_symbol g)) as [[|]| |] eqn:Hwon; try done;
    rewrite bind_Ok.
  - intros [= <- <-]. unfold Game_inv. simpl.
    fold (active_symbol g) (waiting_symbol g). do 8 (split; [done|]).
    split; [done|]. split; [done|]. intros _. split; [done|]. by left.
  - destruct (Board.is_full b') eqn:Hfull; intros [= <- <-]; unfold Game_inv; simpl.
    + fold (active_symbol g) (waiting_symbol g). do 8 (split; [done|]).
      split; [done|]. split; [done|]. intros _. split; [done|]. by right.
    + destruct Hok as (Hplayers & Hturn & Hpitch & _).
      assert (active_symbol (Game.set_turn (Game.set_board g b') (1 - Game._turn g))
              = waiting_symbol g ∧
              waiting_symbol (Game.set_turn (Game.set_board g b') (1 - Game._turn g))
              = active_symbol g) as [Hact Hwt].
      { unfold active_symbol, waiting_symbol. simpl.
        destruct Hturn as [Hturn|Hturn]; rewrite Hturn; done. }
      unfold active_symbol, waiting_symbol in Hact, Hwt. simpl in Hact, Hwt.
      unfold active_symbol at 1, waiting_symbol at 1. simpl. rewrite Hact, Hwt.
      split.
      { split; [done|]. split; [simpl; lia|]. split; [done|]. by apply Board_inv_well_formed. }
      do 7 (split; [done|]). split; [done|]. split; [|congruence]. intros _.
      split; [done|]. split; [lia|]. done.
Qed.

(** Every handled event keeps the invariant. *)
Lemma Game_inv_step fuel rng g pos ev g' pos' :
  Game_inv g → Game.handle_event fuel rng g pos ev = Ok (g', pos') → Game_inv g'.
Proof.
  intros Hinv. destruct ev as [|key|[x y]|].
  - done.
  - destruct (Game._game_over g) eqn:Hover; [|simpl; rewrite Hover; by intros [= <- <-]].
    destruct (decide (key = Game.K_r)) as [->|Hkey].
    + by apply Game_inv_restart.
    + simpl. rewrite Hover, decide_False by done. by intros [= <- <-].
  - destruct (Game._game_over g) eqn:Hover; [simpl; rewrite Hover; by intros [= <- <-]|].
    pose proof Hinv as ((Hplayers & Hturn & Hpitch & Hwf) & _).
    destruct (place_mark_total (Game._board g)
                (grid_index y (Game._cell_size g) (Game._margin g))
                (grid_index x (Game._cell_size g) (Game._margin g)) (active_symbol g) Hwf)
      as ([|] & b' & Hplace).
    + by apply (Game_inv_move fuel rng g pos x y b').
    + rewrite (handle_click fuel rng g pos x y false b'); [|done..].
      intros [= <- <-].
      destruct (decide ((grid_index y (Game._cell_size g) (Game._margin g),
                         grid_index x (Game._cell_size g) (Game._margin g))
                        ∈ Board._legal (Game._board g))) as [Hij|Hij].
      * by rewrite place_mark_legal in Hplace.
      * rewrite place_mark_illegal in Hplace by done. simplify_eq.
        by rewrite set_board_same.
  - by intros [= <- <-].
Qed.

Lemma Game_inv_reachable g : game_reachable g → Game_inv g.
Proof.
  induction 1 as [fuel rng pos g pos' Hinit|fuel rng g pos ev g' pos' _ IH Hev].
  - by apply (Game_inv_init fuel rng pos g pos').
  - by apply (Game_inv_step fuel rng g pos ev g' pos').
Qed.

End GameInvariant.

(** X9: a finished game takes no input: while the game is over every
    event other than the restart key and the quit event leaves the
    controller state and the generator cursor as they were. *)
Theorem game_over_ignores_input (fuel : nat) (rng : nat → Z) (g : Game.t) (pos : nat)
    (ev : Game.event) :
  Game._game_over g = true → ev ≠ Game.QUIT → ev ≠ Game.KEYDOWN Game.K_r →
  Game.handle_event fuel rng g pos ev = Ok (g, pos).
Proof.
  intros Hover Hquit Hrestart. destruct ev as [|key|click|]; simpl; rewrite ?Hover; try done.
  case_decide; [by subst|done].
Qed.

Lemma game_over_ignores_input_witness :
  Game.handle_event 0 (sweep 3) sample_game_over 0 (Game.MOUSEBUTTONDOWN (100, 10))
    = Ok (sample_game_over, 0%nat).
Proof. by apply game_over_ignores_input. Defined.

(** X10: throughout a session the board is the 5×5 board with win length 4
    and exactly five obstacles, it satisfies the board invariant, every mark
    on it is an [X] or an [O], and the open coordinates are the twenty
    cells without obstacle minus the marks. *)
Theorem game_board_constant (g : Game.t) :
  game_reachable g →
  Board_inv (Game._board g) ∧
  Board._rows (Game._board g) = 5 ∧ Board._cols (Game._board g) = 5 ∧
  Board._win_len (Game._board g) = 4 ∧
  count_cells is_obstacle (Game._board g) = 5 ∧
  count_cells is_mark (Game._board g) =
    count_sym "X" (Game._board g) + count_sym "O" (Game._board g) ∧
  Z.of_nat (size (Board._legal (Game._board g))) =
    20 - (count_sym "X" (Game._board g) + count_sym "O" (Game._board g)).
Proof.
  intros (_ & Hinv & Hrows & Hcols & Hwin & _ & Hobs & Hmarks & _)%Game_inv_reachable.
  do 6 (split; [done|]).
  rewrite (Board_inv_size _ Hinv), Hrows, Hcols, Hobs, Hmarks. lia.
Qed.

Lemma started_game_reachable : game_reachable started_game.
Proof. apply (game_constructed 25 (sweep 5) 0 started_game 10). by vm_compute. Qed.

Lemma started_game_moved_reachable : game_reachable started_game_moved.
Proof.
  apply (game_handled 0 (sweep 5) started_game 10 (Game.MOUSEBUTTONDOWN (200, 200))
           started_game_moved 10 started_game_reachable).
  by vm_compute.
Qed.

Lemma game_board_constant_witness :
  game_reachable started_game_moved ∧
  count_cells is_obstacle (Game._board started_game_moved) = 5 ∧
  count_sym "X" (Game._board started_game_moved) = 1.
Proof.
  split; [apply started_game_moved_reachable|].
  destruct (game_board_constant _ started_game_moved_reachable) as (_ & _ & _ & _ & Hobs & _).
  split; [done|by vm_compute].
Defined.

(** X11: throughout a session the terminal flag is set exactly when [X]
    or [O] has won or the board is full; the stored winner is a symbol
    exactly when that player has won, and the two never win together. *)
Theorem game_over_iff_outcome (g : Game.t) :
  game_reachable g →
  (Game._game_over g = true ↔
     Board.check_winner (Game._board g) "X" = Ok true ∨
     Board.check_winner (Game._board g) "O" = Ok true ∨
     Board.is_full (Game._board g) = true) ∧
  (∀ s, Game._winner g = Some s ↔
          (s = "X" ∨ s = "O") ∧ Board.check_winner (Game._board g) s = Ok true) ∧
  ¬ (Board.check_winner (Game._board g) "X" = Ok true ∧
     Board.check_winner (Game._board g) "O" = Ok true).
Proof.
  intros ((_ & Hturn & _) & _ & _ & _ & _ & _ & _ & _ & Hwait & Hprog & Hover)%Game_inv_reachable.
  assert ((active_symbol g = "X" ∧ waiting_symbol g = "O") ∨
          (active_symbol g = "O" ∧ waiting_symbol g = "X")) as Hsyms.
  { unfold active_symbol, waiting_symbol. destruct Hturn as [-> | ->]; [by left|by right]. }
  destruct (Game._game_over g) eqn:Hflag.
  - destruct (Hover eq_refl) as [_ [[Hw Hc]|(Hw & Hfull & Hc)]];
      destruct Hsyms as [[Ha Hb]|[Ha Hb]]; rewrite Ha in *; rewrite Hb in *;
      (split; [split; [intros _; by auto|done]|]);
      (split; [|intros [? ?]; congruence]);
      intros s; rewrite Hw; split;
      try (intros [= <-]; by auto); try done;
      intros [[-> | ->] Hs]; congruence.
  - destruct (Hprog eq_refl) as (Hw & _ & Hfull & Hc).
    destruct Hsyms as [[Ha Hb]|[Ha Hb]]; rewrite Ha in *; rewrite Hb in *;
      (split; [split; [done|intros [?|[?|?]]; congruence]|]);
      (split; [|intros [? ?]; congruence]);
      intros s; rewrite Hw; split; try done;
      intros [[-> | ->] Hs]; congruence.
Qed.

Lemma game_over_iff_outcome_witness :
  game_reachable started_game_moved ∧ Game._game_over started_game_moved = false ∧
  Board.check_winner (Game._board started_game_moved) "X" ≠ Ok true.
Proof.
  split; [apply started_game_moved_reachable|]. split; [done|].
  destruct (game_over_iff_outcome _ started_game_moved_reachable) as (Hover & _ & _).
  intros HX. assert (Game._game_over started_game_moved = true) as Habs; [|done].
  apply Hover. by left.
Defined.

(** X12: the players alternate: while the game is in progress [X] has as
    many marks as [O] when it is [X]'s turn and one more when it is [O]'s;
    once the game is over the turn is still that of the player who moved
    last; [X] never has fewer marks than [O] nor more than one more. *)
Theorem marks_alternate (g : Game.t) :
  game_reachable g →
  (Game._game_over g = false →
     count_sym "X" (Game._board g) = count_sym "O" (Game._board g) + Game._turn g) ∧
  (Game._game_over g = true →
     count_sym "X" (Game._board g) + Game._turn g = count_sym "O" (Game._board g) + 1) ∧
  0 ≤ count_sym "X" (Game._board g) - count_sym "O" (Game._board g) ≤ 1.
Proof.
  intros ((_ & Hturn & _) & _ & _ & _ & _ & _ & _ & _ & _ & Hprog & Hover)%Game_inv_reachable.
  split; [intros Hflag; by apply Hprog|]. split; [intros Hflag; by apply Hover|].
  destruct (Game._game_over g).
  - destruct (Hover eq_refl) as [Hpar _]. lia.
  - destruct (Hprog eq_refl) as (_ & Hpar & _). lia.
Qed.

Lemma marks_alternate_witness :
  game_reachable started_game_moved ∧ Game._turn started_game_moved = 1 ∧
  count_sym "X" (Game._board started_game_moved)
    = count_sym "O" (Game._board started_game_moved) + 1.
Proof.
  split; [apply started_game_moved_reachable|]. split; [done|].
  destruct (marks_alternate _ started_game_moved_reachable) as (Hprog & _). by apply Hprog.
Defined.

(** X13: in a session the only event that raises is the quit event, which
    raises [SystemExit]: clicks and keys never raise, whatever the pointer
    position and the draws. *)
Theorem only_quit_raises (fuel : nat) (rng : nat → Z) (g : Game.t) (pos : nat)
    (ev : Game.event) (e : exn) :
  game_reachable g →
  Game.handle_event fuel rng g pos ev = Raise e →
  ev = Game.QUIT ∧ e = SystemExit.
Proof.
  intros (Hok & Hinv & Hrows & Hcols & Hwin & Hnum & _)%Game_inv_reachable.
  destruct ev as [|key|[x y]|].
  - by intros [= <-].
  - simpl. destruct (Game._game_over g); [|done]. case_decide; [|done].
    unfold Board.reset. rewrite Hrows, Hcols.
    destruct (Board._init_board _ _ _ _ _ _ _) as [[b pos']|e'|] eqn:Hinit; try done.
    by apply (init_no_raise rng fuel 5 5) in Hinit.
  - destruct (Game._game_over g) eqn:Hover; [simpl; by rewrite Hover|].
    pose proof Hok as (_ & _ & _ & Hwf).
    destruct (place_mark_total (Game._board g)
                (grid_index y (Game._cell_size g) (Game._margin g))
                (grid_index x (Game._cell_size g) (Game._margin g)) (active_symbol g) Hwf)
      as (moved & b' & Hplace).
    rewrite (handle_click fuel rng g pos x y moved b' Hok Hover Hplace).
    destruct moved; [|done].
    pose proof (place_mark_well_formed _ _ _ _ _ _ Hwf Hplace) as [Hs' _].
    destruct (check_winner_spec b' (active_symbol g) Hs') as (won & -> & _).
    rewrite bind_Ok. destruct won; [done|]. by destruct (Board.is_full b').
  - done.
Qed.

Lemma only_quit_raises_witness :
  game_reachable started_game ∧
  Game.handle_event 0 (sweep 5) started_game 10 Game.QUIT = Raise SystemExit ∧
  Game.handle_event 0 (sweep 5) started_game 10 (Game.MOUSEBUTTONDOWN (-7, 9000))
    ≠ Raise IndexError.
Proof.
  split; [apply started_game_reachable|]. split; [done|].
  intros Hraise. by apply (only_quit_raises _ _ _ _ _ _ started_game_reachable) in Hraise as [? ?].
Defined.

(** X14: the game constructor returns once the draws have covered the 5×5
    grid and never raises; the game it returns is in progress with [X] to
    move, no winner, the two human players [X] and [O], cells of 80 pixels
    with a margin of 5, and a board with five obstacles, no mark and twenty
    open coordinates. *)
Theorem game_init_state (fuel : nat) (rng : nat → Z) (pos : nat) :
  (covers rng 5 5 pos fuel → ∃ g pos', Game.__init__ fuel rng pos = Ok (g, pos')) ∧
  (∀ e, Game.__init__ fuel rng pos ≠ Raise e) ∧
  (∀ g pos', Game.__init__ fuel rng pos = Ok (g, pos') →
     Game._turn g = 0 ∧ Game._game_over g = false ∧ Game._winner g = None ∧
     Game._players g = [Player.HumanPlayer "X"; Player.HumanPlayer "O"] ∧
     Game._cell_size g = 80 ∧ Game._margin g = 5 ∧
     fresh_board 5 5 4 5 (Game._board g) ∧
     Z.of_nat (size (Board._legal (Game._board g))) = 20).
Proof.
  unfold Game.__init__. split; [|split].
  - intros Hcov.
    destruct (init_board_total rng fuel 5 5 4 5 pos) as (b & pos' & Hinit); [lia..|done|].
    unfold Board.__init__. rewrite Hinit, bind_Ok. by eauto.
  - intros e. destruct (Board.__init__ _ _ _ _ _ _ _) as [[b pos']|e'|] eqn:Hinit; try done.
    by apply init_no_raise in Hinit.
  - intros g pos'.
    destruct (Board.__init__ _ _ _ _ _ _ _) as [[b pos'']| |] eqn:Hinit; try done.
    rewrite bind_Ok. intros [= <- <-]. simpl. do 6 (split; [done|]).
    pose proof (init_board_fresh rng fuel 5 5 4 5 pos b pos'' ltac:(lia) ltac:(lia)
                  ltac:(lia) Hinit) as Hfresh.
    split; [done|]. destruct Hfresh as (_ & _ & _ & _ & _ & _ & _ & _ & Hsize). lia.
Qed.

Lemma game_init_state_witness :
  covers (sweep 5) 5 5 0 25 ∧
  ∃ g pos', Game.__init__ 25 (sweep 5) 0 = Ok (g, pos') ∧
            Z.of_nat (size (Board._legal (Game._board g))) = 20.
Proof.
  assert (covers (sweep 5) 5 5 0 25) as Hcov.
  { apply (bool_decide_unpack _). by vm_compute. }
  split; [done|].
  destruct (game_init_state 25 (sweep 5) 0) as (Htotal & _ & Hstate).
  destruct (Htotal Hcov) as (g & pos' & Hinit). exists g, pos'. split; [done|].
  by apply (Hstate g pos').
Defined.

(** ** Sequences of events *)




(** ** Drawing and clicking *)

Section Geometry.
Implicit Types (cell_size margin i j x y : Z).

(** The index of a coordinate between the start of a cell and the start
    of the next one is the index of that cell. *)
Lemma grid_index_cell coordinate cell_size margin k :
  0 < cell_size + margin →
  margin + k * (cell_size + margin) ≤ coordinate
    < margin + k * (cell_size + margin) + (cell_size + margin) →
  grid_index coordinate cell_size margin = k.
Proof.
  intros Hp Hc. pose proof (grid_index_floor coordinate cell_size margin Hp). nia.
Qed.

End Geometry.

(** X16: what is drawn is what is clicked: a click inside the rectangle
    [draw] gives a cell, or in the margin to the right of or below it, is
    mapped by the human player's move to that cell, and the move is
    [place_mark] at that cell. *)
Theorem click_hits_drawn_cell (b : Board.t) (sym : string) (cell_size margin i j x y : Z) :
  0 < cell_size → 0 ≤ margin →
  Screen.left (Board.cell_rect cell_size margin i j) ≤ x
    < Screen.left (Board.cell_rect cell_size margin i j) + cell_size + margin →
  Screen.top (Board.cell_rect cell_size margin i j) ≤ y
    < Screen.top (Board.cell_rect cell_size margin i j) + cell_size + margin →
  grid_index y cell_size margin = i ∧ grid_index x cell_size margin = j ∧
  Player.make_move (Player.HumanPlayer sym) b (x, y) cell_size margin =
    Board.place_mark b i j sym.
Proof.
  intros Hc Hm Hx Hy. simpl in Hx, Hy.
  assert (grid_index y cell_size margin = i) as Hi by (apply grid_index_cell; lia).
  assert (grid_index x cell_size margin = j) as Hj by (apply grid_index_cell; lia).
  split; [done|]. split; [done|].
  rewrite make_move_place_mark by lia. by rewrite Hi, Hj.
Qed.

Lemma click_hits_drawn_cell_witness :
  Screen.left (Board.cell_rect 80 5 0 1) = 90 ∧
  Player.make_move (Player.HumanPlayer "O") sample_board (169, 84) 80 5 =
    Board.place_mark sample_board 0 1 "O".
Proof.
  split; [done|].
  apply (click_hits_drawn_cell sample_board "O" 80 5 0 1 169 84); simpl; lia.
Defined.

(** X17: the rectangles of two different cells share no pixel. *)
Theorem cell_rects_disjoint (cell_size margin i j i' j' x y : Z) :
  0 < cell_size → 0 ≤ margin →
  in_rect (Board.cell_rect cell_size margin i j) x y →
  in_rect (Board.cell_rect cell_size margin i' j') x y →
  i = i' ∧ j = j'.
Proof.
  unfold in_rect. simpl. intros Hc Hm [Hx Hy] [Hx' Hy'].
  assert (grid_index y cell_size margin = i) as <- by (apply grid_index_cell; lia).
  assert (grid_index x cell_size margin = j) as <- by (apply grid_index_cell; lia).
  split; apply grid_index_cell; lia.
Qed.

Lemma cell_rects_disjoint_witness :
  in_rect (Board.cell_rect 80 5 1 2) 200 100 ∧
  ¬ in_rect (Board.cell_rect 80 5 1 3) 200 100.
Proof.
  assert (in_rect (Board.cell_rect 80 5 1 2) 200 100) as Hin.
  { unfold in_rect. simpl. lia. }
  split; [done|]. intros Hin'.
  destruct (cell_rects_disjoint 80 5 1 2 1 3 200 100 ltac:(lia) ltac:(lia) Hin Hin'). lia.
Defined.

(** X18: every cell of the grid is drawn inside the window the game opens,
    a margin away from its left, right and top edges and above the strip of
    60 pixels at the bottom. *)
Theorem cells_fit_window (rows cols cell_size margin i j : Z) :
  in_bounds rows cols i j → 0 ≤ cell_size → 0 ≤ margin →
  margin ≤ Screen.left (Board.cell_rect cell_size margin i j) ∧
  Screen.left (Board.cell_rect cell_size margin i j)
    + Screen.width (Board.cell_rect cell_size margin i j) + margin
    ≤ (Game.window_size rows cols cell_size margin).1 ∧
  margin ≤ Screen.top (Board.cell_rect cell_size margin i j) ∧
  Screen.top (Board.cell_rect cell_size margin i j)
    + Screen.height (Board.cell_rect cell_size margin i j) + margin + 60
    ≤ (Game.window_size rows cols cell_size margin).2.
Proof. unfold in_bounds. simpl. intros [Hi Hj] Hc Hm. nia. Qed.

Lemma cells_fit_window_witness :
  in_bounds 5 5 4 4 ∧ Game.window_size 5 5 80 5 = (430, 490) ∧
  Screen.left (Board.cell_rect 80 5 4 4) + Screen.width (Board.cell_rect 80 5 4 4) + 5 ≤ 430.
Proof.
  assert (in_bounds 5 5 4 4) as Hb by (unfold in_bounds; lia).
  split; [done|]. split; [done|].
  destruct (cells_fit_window 5 5 80 5 4 4 Hb ltac:(lia) ltac:(lia)) as (_ & Hright & _).
  exact Hright.
Defined.

Section Drawing.
Variables (b : Board.t) (cell_size margin : Z) (fonts : Screen.fonts).
Hypothesis Hshape : shape_ok (Board._rows b) (Board._cols b) (Board._cells b).

Lemma draw_cell_ops i j val :
  cell (Board._cells b) i j = Some val →
  Board.draw_cell b cell_size margin fonts i j =
    Ok (cell_ops fonts (Board.cell_rect cell_size margin i j) val).
Proof.
  intros Hcell. unfold Board.draw_cell, cell_ops.
  rewrite (get_cell _ _ _ _ Hcell), bind_Ok. by repeat case_decide.
Qed.

(** The calls [draw] makes are those for the cells, row by row. *)
Lemma draw_cells_ops (cs : list (Z * Z)) :
  (∀ i j, (i, j) ∈ cs → in_bounds (Board._rows b) (Board._cols b) i j) →
  Board.draw_cells b cell_size margin fonts cs =
    Ok (cs ≫= λ ij, cell_ops fonts (Board.cell_rect cell_size margin ij.1 ij.2)
                     (default "" (cell (Board._cells b) ij.1 ij.2))).
Proof.
  induction cs as [|[i j] cs IH]; intros Hcs; [done|].
  destruct (cell_in_bounds _ _ _ _ _ Hshape (Hcs i j (list_elem_of_here _ _))) as [val Hval].
  simpl. rewrite (draw_cell_ops i j val Hval), bind_Ok, IH, bind_Ok
    by (intros; apply Hcs; by right).
  by rewrite Hval.
Qed.

Lemma rects_of_cell_ops r val : rects_of (cell_ops fonts r val) = [r].
Proof. unfold cell_ops. by repeat case_decide. Qed.

Lemma rects_in_grey_cell_ops r val :
  rects_in (200, 200, 200) (cell_ops fonts r val) = if is_obstacle val then [r] else [].
Proof.
  unfold cell_ops, is_obstacle.
  destruct (decide (val = "#")) as [->|Hne]; [done|].
  rewrite bool_decide_eq_false_2 by done. by repeat case_decide.
Qed.

Lemma texts_of_cell_ops r val :
  texts_of (cell_ops fonts r val) =
    if bool_decide (val = "X") || bool_decide (val = "O") then [val] else [].
Proof.
  unfold cell_ops.
  destruct (decide (val = "X")) as [->|HX]; [done|].
  destruct (decide (val = "O")) as [->|HO]; [done|].
  by rewrite !bool_decide_eq_false_2.
Qed.

End Drawing.

Section Collecting.
Context {A B C : Type}.

Lemma omap_bind (g : B → option C) (h : A → list B) (l : list A) :
  omap g (l ≫= h) = l ≫= λ x, omap g (h x).
Proof.
  induction l as [|x l IH]; [done|]. by rewrite !bind_cons, omap_app, IH.
Qed.

Lemma bind_singleton_fmap (h : A → B) (l : list A) : (l ≫= λ x, [h x]) = h <$> l.
Proof. induction l as [|x l IH]; [done|]. rewrite bind_cons, IH. done. Qed.

Lemma length_bind_if (P : A → bool) (h : A → B) (l : list A) :
  length (l ≫= λ x, if P x then [h x] else []) = length (filter (λ x, P x = true) l).
Proof.
  induction l as [|x l IH]; [done|]. rewrite bind_cons, length_app, IH, filter_cons.
  destruct (P x); [by rewrite decide_True|by rewrite decide_False].
Qed.

Lemma bind_ext_in (h1 h2 : A → list B) (l : list A) :
  (∀ x, x ∈ l → h1 x = h2 x) → l ≫= h1 = l ≫= h2.
Proof.
  induction l as [|x l IH]; intros Heq; [done|].
  rewrite !bind_cons, (Heq x) by left. f_equal. apply IH. intros; apply Heq. by right.
Qed.

End Collecting.

Lemma filter_length_or {A} (P1 P2 : A → Prop)
    `{!∀ x, Decision (P1 x), !∀ x, Decision (P2 x)} (l : list A) :
  (∀ x, x ∈ l → ¬ (P1 x ∧ P2 x)) →
  length (filter (λ x, P1 x ∨ P2 x) l) = (length (filter P1 l) + length (filter P2 l))%nat.
Proof.
  induction l as [|x l IH]; intros Hl; [done|].
  assert (length (filter (λ x, P1 x ∨ P2 x) l)
          = (length (filter P1 l) + length (filter P2 l))%nat) as IH'.
  { apply IH. intros; apply Hl. by right. }
  pose proof (Hl x (list_elem_of_here _ _)) as Hx.
  rewrite !filter_cons. repeat case_decide; simpl; tauto || lia.
Qed.

(** X19: on a grid of the declared shape [draw] does not raise; it draws
    one rectangle per cell, row by row, as many grey ones as there are
    obstacles, and one text per mark of [X] or [O]. *)
Theorem draw_board (b : Board.t) (cell_size margin : Z) (fonts : Screen.fonts) :
  shape_ok (Board._rows b) (Board._cols b) (Board._cells b) →
  ∃ ops, Board.draw b cell_size margin fonts = Ok ops ∧
    rects_of ops =
      (λ ij, Board.cell_rect cell_size margin ij.1 ij.2)
        <$> Board.coords (Board._rows b) (Board._cols b) ∧
    Z.of_nat (length (rects_of ops)) = Board._rows b * Board._cols b ∧
    Z.of_nat (length (rects_in (200, 200, 200) ops)) = count_cells is_obstacle b ∧
    Z.of_nat (length (texts_of ops)) = count_sym "X" b + count_sym "O" b.
Proof.
  intros Hs. eexists. split.
  { apply draw_cells_ops; [done|]. by intros i j Hij%elem_of_coords. }
  assert (∀ p : string → bool, ∀ ij, ij ∈ Board.coords (Board._rows b) (Board._cols b) →
            p (default "" (cell (Board._cells b) ij.1 ij.2)) = true ↔
            from_option p false (cell (Board._cells b) ij.1 ij.2) = true) as Hcell.
  { intros p [i j] Hij%elem_of_coords. simpl.
    by destruct (cell_in_bounds _ _ _ _ _ Hs Hij) as [c ->]. }
  assert (rects_of (Board.coords (Board._rows b) (Board._cols b) ≫= λ ij,
            cell_ops fonts (Board.cell_rect cell_size margin ij.1 ij.2)
              (default "" (cell (Board._cells b) ij.1 ij.2)))
          = (λ ij, Board.cell_rect cell_size margin ij.1 ij.2)
              <$> Board.coords (Board._rows b) (Board._cols b)) as Hrects.
  { unfold rects_of. rewrite omap_bind, <-bind_singleton_fmap.
    apply bind_ext_in. intros ij _. apply rects_of_cell_ops. }
  split; [done|]. split.
  { rewrite Hrects, length_fmap. apply length_coords; apply Hs. }
  split.
  - unfold rects_in. rewrite omap_bind.
    erewrite bind_ext_in; [|intros ij _; apply rects_in_grey_cell_ops].
    rewrite (length_bind_if (λ ij, is_obstacle (default "" (cell (Board._cells b) ij.1 ij.2)))).
    unfold count_cells, cells_where. f_equal.
    apply filter_length_agree. intros ij Hij. symmetry. by apply (Hcell is_obstacle).
  - unfold texts_of. rewrite omap_bind.
    erewrite bind_ext_in; [|intros ij _; apply texts_of_cell_ops].
    rewrite (length_bind_if
      (λ ij, bool_decide (default "" (cell (Board._cells b) ij.1 ij.2) = "X")
             || bool_decide (default "" (cell (Board._cells b) ij.1 ij.2) = "O"))
      (λ ij, default "" (cell (Board._cells b) ij.1 ij.2))).
    unfold count_sym, count_cells, cells_where.
    rewrite <-Nat2Z.inj_add. f_equal.
    rewrite <-(filter_length_or
      (λ ij, from_option (λ c, bool_decide (c = "X")) false (cell (Board._cells b) ij.1 ij.2) = true)
      (λ ij, from_option (λ c, bool_decide (c = "O")) false (cell (Board._cells b) ij.1 ij.2) = true)).
    + apply filter_length_agree. intros ij Hij.
      rewrite <-(Hcell (λ c, bool_decide (c = "X")) ij Hij).
      rewrite <-(Hcell (λ c, bool_decide (c = "O")) ij Hij).
      rewrite orb_true_iff. tauto.
    + intros ij _. destruct (cell (Board._cells b) ij.1 ij.2) as [c|]; simpl; [|by intros [? ?]].
      rewrite !bool_decide_eq_true. intros [-> ?]. done.
Qed.

Lemma draw_board_witness :
  ∃ ops, Board.draw sample_board 80 5 Game.fonts = Ok ops ∧
         length (rects_of ops) = 9%nat ∧ texts_of ops = ["X"].
Proof.
  destruct (draw_board sample_board 80 5 Game.fonts (proj1 sample_board_inv))
    as (ops & Hdraw & _ & Hlen & _).
  exists ops. split; [done|]. split; [simpl in Hlen; lia|].
  vm_compute in Hdraw. injection Hdraw as <-. done.
Defined.

(** X20: in a session [_draw] does not raise; it clears the screen, draws
    the board and flips the display, and between the board and the flip it
    shows a message and the restart hint exactly when the game is over.
    The message is [X wins!] exactly when [X] has a winning run, [O wins!]
    exactly when [O] has one, and [Draw!] exactly when neither has one. *)
Theorem draw_banner (g : Game.t) (fonts : Screen.fonts) (screen_height : Z) :
  game_reachable g →
  ∃ board_ops,
    Board.draw (Game._board g) (Game._cell_size g) (Game._margin g) fonts = Ok board_ops ∧
    (Game._game_over g = false →
       Game._draw g fonts screen_height =
         Ok (Screen.Fill (0, 0, 0) :: board_ops ++ [Screen.Flip])%list) ∧
    (Game._game_over g = true →
       ∃ msg,
         Game._draw g fonts screen_height =
           Ok (Screen.Fill (0, 0, 0) :: board_ops ++
               [Screen.Blit (Screen.font_MSG fonts) msg (0, 255, 0) Screen.CenterOfScreen;
                Screen.Blit (Screen.font_MSG fonts) "Press R to restart" (200, 200, 200)
                            (Screen.TopLeft 10 (screen_height - 50));
                Screen.Flip])%list ∧
         (msg = "X wins!" ↔ Board.check_winner (Game._board g) "X" = Ok true) ∧
         (msg = "O wins!" ↔ Board.check_winner (Game._board g) "O" = Ok true) ∧
         (msg = "Draw!" ↔
            Board.check_winner (Game._board g) "X" = Ok false ∧
            Board.check_winner (Game._board g) "O" = Ok false ∧
            Board.is_full (Game._board g) = true)).
Proof.
  intros ((_ & Hturn & _) & Hinv & _ & _ & _ & _ & _ & _ & Hwait & _ & Hover)%Game_inv_reachable.
  eexists. split.
  { apply draw_cells_ops; [apply Hinv|]. by intros i j Hij%elem_of_coords. }
  unfold Game._draw, Board.draw.
  rewrite draw_cells_ops, bind_Ok; [|apply Hinv|by intros i j Hij%elem_of_coords].
  split; [by intros ->|]. intros Hflag. rewrite Hflag.
  exists (Game.message (Game._winner g)). split; [done|].
  assert ((active_symbol g = "X" ∧ waiting_symbol g = "O") ∨
          (active_symbol g = "O" ∧ waiting_symbol g = "X")) as Hsyms.
  { unfold active_symbol, waiting_symbol. destruct Hturn as [-> | ->]; [by left|by right]. }
  destruct (Hover Hflag) as [_ [[Hw Hc]|(Hw & Hfull & Hc)]];
    destruct Hsyms as [[Ha Hb]|[Ha Hb]]; rewrite Hw; rewrite Ha in *; rewrite Hb in *;
    simpl; rewrite Hc, Hwait;
    (split; [split; (done || by intros [? ?])|]);
    (split; [split; done|]); split; (done || by intros (? & ? & ?)).
Qed.

Lemma draw_banner_witness :
  game_reachable started_game_moved ∧
  ∃ board_ops,
    Board.draw (Game._board started_game_moved) 80 5 Game.fonts = Ok board_ops ∧
    Game._draw started_game_moved Game.fonts 490
      = Ok (Screen.Fill (0, 0, 0) :: board_ops ++ [Screen.Flip])%list.
Proof.
  split; [apply started_game_moved_reachable|].
  destruct (draw_banner started_game_moved Game.fonts 490 started_game_moved_reachable)
    as (board_ops & Hdraw & Hprog & _).
  exists board_ops. split; [done|]. by apply Hprog.
Defined.

(** ** Where the obstacles come from *)

Section Drawn.
Variable rng : nat → Z.
Variables rows cols n : Z.

(** Every obstacle the placement loop leaves was one before or was drawn
    by one of its iterations. *)
Lemma place_loop_drawn fuel cells placed pos cells' pos' :
  placing rows cols cells placed →
  Board.place_loop fuel rng rows cols n cells placed pos = Ok (cells', pos') →
  (pos ≤ pos')%nat ∧
  ∀ i j, cell cells' i j = Some "#" →
    cell cells i j = Some "#" ∨
    ∃ k, (k < fuel)%nat ∧ (pos + 2 * k + 1 < pos')%nat ∧
         rng (pos + 2 * k)%nat `mod` rows = i ∧ rng (pos + 2 * k + 1)%nat `mod` cols = j.
Proof.
  revert cells placed pos. induction fuel as [|fuel IH]; intros cells placed pos Hp.
  - destruct (decide (placed < n)); [by rewrite place_loop_no_fuel|].
    rewrite place_loop_done by lia. intros [= <- <-]. split; [done|]. by left.
  - destruct (decide (placed < n)) as [Hlt|Hge].
    2:{ rewrite place_loop_done by lia. intros [= <- <-]. split; [done|]. by left. }
    destruct (decide (rows ≤ 0 ∨ cols ≤ 0)) as [Hdim|Hdim];
      [by rewrite place_loop_ValueError|].
    destruct (place_loop_step rng rows cols n fuel cells placed pos)
      as (c & Hb & Hc & ->); [apply Hp|lia..|].
    assert (∀ k, (S (S pos) + 2 * k = pos + 2 * S k)%nat) as Hshift by (intros; lia).
    case_decide as Hdot; [subst c|].
    + intros Hloop. destruct (IH _ _ _ (placing_step _ _ _ _ _ _ Hp Hb Hc) Hloop) as [Hpos Hdrawn].
      split; [lia|]. intros i j Hij.
      destruct (Hdrawn i j Hij) as [Hobs|(k & Hk & Hlt' & Hi & Hj)].
      * destruct (decide ((i, j) = (rng pos `mod` rows, rng (S pos) `mod` cols))) as [Heq|Hne].
        { right. exists 0%nat. simplify_eq. split; [lia|]. split; [lia|].
          split; f_equal; f_equal; lia. }
        left. rewrite cell_update_ne in Hobs; [done| | |done]; unfold in_bounds in Hb; lia.
      * right. exists (S k). rewrite <-!Hshift. split; [lia|]. split; [lia|]. done.
    + intros Hloop. destruct (IH _ _ _ Hp Hloop) as [Hpos Hdrawn].
      split; [lia|]. intros i j Hij.
      destruct (Hdrawn i j Hij) as [Hobs|(k & Hk & Hlt' & Hi & Hj)]; [by left|].
      right. exists (S k). rewrite <-!Hshift. split; [lia|]. split; [lia|]. done.
Qed.

End Drawn.

(** X21: every obstacle of a constructed board sits at a coordinate that
    one of the iterations of the placement loop drew, from draws the
    construction has consumed. *)
Theorem obstacles_were_drawn (fuel : nat) (rng : nat → Z) (rows cols win_len n : Z)
    (pos : nat) (b : Board.t) (pos' : nat) (i j : Z) :
  0 ≤ rows → 0 ≤ cols →
  Board.__init__ fuel rng rows cols win_len n pos = Ok (b, pos') →
  cell (Board._cells b) i j = Some "#" →
  ∃ k, (k < fuel)%nat ∧ (pos + 2 * k + 1 < pos')%nat ∧
       rng (pos + 2 * k)%nat `mod` rows = i ∧ rng (pos + 2 * k + 1)%nat `mod` cols = j.
Proof.
  intros Hr Hc. unfold Board.__init__. rewrite init_board_unfold by done.
  destruct (Board.place_loop _ _ _ _ _ _ _ _) as [[cells pos'']| |] eqn:Hloop; try done.
  rewrite bind_Ok. intros [= <- <-]. simpl. intros Hobs.
  destruct (place_loop_drawn rng rows cols n fuel _ _ _ _ _ (placing_empty rows cols Hr Hc) Hloop)
    as [_ Hdrawn].
  destruct (Hdrawn i j Hobs) as [Hempty|Hk]; [|done].
  pose proof (cell_bounds _ _ _ _ _ _ (empty_grid_shape rows cols Hr Hc) Hempty) as Hb.
  rewrite (empty_grid_cell _ _ _ _ Hb) in Hempty. done.
Qed.

Lemma obstacles_were_drawn_witness :
  ∃ k, (k < 9)%nat ∧ (0 + 2 * k + 1 < 4)%nat ∧
       sweep 3 (0 + 2 * k)%nat `mod` 3 = 1 ∧ sweep 3 (0 + 2 * k + 1)%nat `mod` 3 = 0.
Proof.
  apply (obstacles_were_drawn 9 (sweep 3) 3 3 3 2 0
           (Board.mk 3 3 3 2 [["#"; "."; "."]; ["#"; "."; "."]; ["."; "."; "."]]
              (list_to_set [(0, 1); (0, 2); (1, 1); (1, 2); (2, 0); (2, 1); (2, 2)]))
           4 1 0); [lia|lia|by vm_compute|done].
Defined.
